(** * Horizontal section navigation of the landing page

    A shallow embedding of the navigation controller of
    [src/frontend/src/routes/landing.tsx] ([LandingPage]): the handlers
    [scrollToSection], [handleKey], [handleTouchStart]/[handleTouchEnd],
    [handleWheel], [handleResize] and [handleScroll], the browser timers they
    schedule and the scroll container they drive.

    Modelling choices.
    - Pixel quantities ([scrollLeft], [offsetWidth], wheel deltas, touch
      coordinates) are integers ([Z]).  [rawIndex % 1 > threshold] is written
      with the truncating remainder [Z.rem], exactly as JavaScript's [%].
    - React refs and effect-local [let] variables are fields of one state
      record.  A [setCurrentSection] that changes the value re-renders the
      component; the re-render runs the cleanup of the resize effect (its
      dependency is [currentSection]), which clears the pending outer resize
      timeout.  Handlers registered by effects that depend on
      [currentSection] read the current value.
    - The container: [scrollTo] clamps to [0, maxScroll]; a ['smooth'] scroll
      records an animation target that the browser reaches later (event
      [AnimEnd]); an ['auto'] scroll moves at once and cancels any running
      smooth scroll.  A change of [scrollLeft] queues a [scroll] event, which
      the browser dispatches in the next frame together with the
      [requestAnimationFrame] callback of [handleScroll] (event [Frame]).
    - [setTimeout] callbacks are kept in a list with their due time; they
      fire in due order, ties in scheduling order (event [Wait]).
    - Every call of [scrollToSection] made by a handler is appended to the
      observation log [requests]. *)

From Stdlib Require Import ZArith List String Bool Lia QArith Qround.
Import ListNotations.
Open Scope Z_scope.

(** ** Sections and index resolution *)

Definition sectionLabels : list string :=
  ["Home"; "How"; "Pipeline"; "Capabilities"; "Trust"; "About"; "Contact"]%string.

Definition maxIndex : Z := Z.of_nat (List.length sectionLabels) - 1.

(** [Math.max(0, Math.min(maxIndex, i))] *)
Definition clampIndex (i : Z) : Z := Z.max 0 (Z.min maxIndex i).

(** *** Double-precision division

    [scrollLeft / sectionWidth] divides two integers in binary64: the exact
    quotient rounded to the nearest double, ties to even.  A positive
    quotient is [m * 2 ^ (- e)] with a 53-bit significand [m]. *)

(** [n * 2 ^ e / d] as a fraction of integers. *)
Definition scaleFrac (n d e : Z) : Z * Z :=
  if 0 <=? e then (n * 2 ^ e, d) else (n, d * 2 ^ (- e)).

(** [a / b] rounded to the nearest integer, ties to even
    ([a >= 0], [b > 0]). *)
Definition roundHalfEven (a b : Z) : Z :=
  let q := a / b in
  let r := a mod b in
  if (b <? 2 * r) || ((2 * r =? b) && Z.odd q) then q + 1 else q.

(** The double nearest to [n / d] for integers [n, d > 0], as [(m, e)]
    standing for [m * 2 ^ (- e)]: [e] puts the exact quotient times
    [2 ^ e] into [[2^52, 2^53)], and [m] is that product rounded.  For
    operands below [2 ^ 53] the quotient is far from the subnormal and
    the overflow ranges, so this is IEEE-754 division. *)
Definition divPos (n d : Z) : Z * Z :=
  let e0 := 52 - (Z.log2 n - Z.log2 d) in
  let e := if fst (scaleFrac n d e0) / snd (scaleFrac n d e0) <? 2 ^ 52
           then e0 + 1 else e0 in
  (roundHalfEven (fst (scaleFrac n d e)) (snd (scaleFrac n d e)), e).

(** The double [0.3] is [thresholdMant * 2 ^ (- thresholdExp)]. *)
Definition thresholdMant : Z := 5404319552844595.
Definition thresholdExp : Z := 54.

(** For a double [v = m * 2 ^ (- e) >= 0]: [Math.floor(v)],
    [Math.ceil(v)], and [v % 1 > 0.3] ([v % 1] is
    [(m mod 2 ^ e) * 2 ^ (- e)], exactly). *)
Definition floorDbl (m e : Z) : Z :=
  if 0 <=? e then m / 2 ^ e else m * 2 ^ (- e).

Definition ceilDbl (m e : Z) : Z :=
  if (0 <=? e) && negb (m mod 2 ^ e =? 0) then floorDbl m e + 1 else floorDbl m e.

Definition fracAbove (m e : Z) : bool :=
  (0 <=? e) && (thresholdMant * 2 ^ e <? (m mod 2 ^ e) * 2 ^ thresholdExp).

(** *** Index resolution *)

(** A JavaScript number the index computation can produce: an integer,
    [Infinity], [-Infinity] or [NaN]. *)
Inductive JsIndex := Idx (i : Z) | PosInf | NegInf | NaN.

(** The rounding shared by [handleScroll] and the wheel timeout:
    [rawIndex = scrollLeft / sectionWidth], [Math.ceil(rawIndex)] when
    [rawIndex % 1 > 0.3], [Math.floor(rawIndex)] otherwise.  A negative
    quotient has [rawIndex % 1 <= 0] and is rounded down; [x / 0] is
    [Infinity], [-Infinity], or [NaN] for [0 / 0], and
    [NaN > 0.3] is false. *)
Definition roundIndex (scrollLeft sectionWidth : Z) : JsIndex :=
  if sectionWidth =? 0 then
    if scrollLeft =? 0 then NaN else if 0 <? scrollLeft then PosInf else NegInf
  else if scrollLeft =? 0 then Idx 0
  else
    let '(m, e) := divPos (Z.abs scrollLeft) (Z.abs sectionWidth) in
    if Bool.eqb (scrollLeft <? 0) (sectionWidth <? 0) then
      if fracAbove m e then Idx (ceilDbl m e) else Idx (floorDbl m e)
    else Idx (- ceilDbl m e).

(** [Math.max(0, Math.min(maxIndex, v))]; [NaN] stays [NaN]. *)
Definition clampJs (v : JsIndex) : JsIndex :=
  match v with
  | Idx i => Idx (clampIndex i)
  | PosInf => Idx maxIndex
  | NegInf => Idx 0
  | NaN => NaN
  end.

(** [handleScroll]'s index: the rounding clamped to [0, maxIndex]. *)
Definition resolveIndex (scrollLeft sectionWidth : Z) : JsIndex :=
  clampJs (roundIndex scrollLeft sectionWidth).

(** ** State *)

(** Timer callbacks, with the values their closures captured. *)
Inductive Callback :=
  | CbSettle (sectionWidth clampedIndex : Z) (originalSnapType : string)
  | CbWheel (deltaY : Z)
  | CbResizeOuter
  | CbResizeInner (currentSection : Z).

Record Timer := mkTimer { due : Z; cb : Callback }.

Record State := mkState {
  now : Z;                     (** [Date.now()] *)
  width : Z;                   (** [offsetWidth] of every section *)
  scrollLeft : Z;              (** [container.scrollLeft] *)
  anim : option Z;             (** target of a running smooth scroll *)
  scrollPending : bool;        (** a [scroll] event waits for the next frame *)
  snapType : string;           (** [container.style.scrollSnapType] *)
  currentSection : Z;          (** React state [currentSection] *)
  scrollInProgress : bool;     (** [scrollInProgressRef.current] *)
  pendingScroll : option Z;    (** [pendingScrollRef.current] *)
  lastWheelTime : Z;
  accumulatedDelta : Z;
  touchStartX : Z;
  touchStartY : Z;
  timers : list Timer;
  requests : list Z            (** log of [scrollToSection] calls *)
}.

Definition set_now (v : Z) (s : State) : State :=
  mkState v (width s) (scrollLeft s) (anim s) (scrollPending s) (snapType s)
    (currentSection s) (scrollInProgress s) (pendingScroll s) (lastWheelTime s)
    (accumulatedDelta s) (touchStartX s) (touchStartY s) (timers s) (requests s).

Definition set_width (v : Z) (s : State) : State :=
  mkState (now s) v (scrollLeft s) (anim s) (scrollPending s) (snapType s)
    (currentSection s) (scrollInProgress s) (pendingScroll s) (lastWheelTime s)
    (accumulatedDelta s) (touchStartX s) (touchStartY s) (timers s) (requests s).

Definition set_scroll (pos : Z) (a : option Z) (pend : bool) (s : State) : State :=
  mkState (now s) (width s) pos a pend (snapType s)
    (currentSection s) (scrollInProgress s) (pendingScroll s) (lastWheelTime s)
    (accumulatedDelta s) (touchStartX s) (touchStartY s) (timers s) (requests s).

Definition set_snapType (v : string) (s : State) : State :=
  mkState (now s) (width s) (scrollLeft s) (anim s) (scrollPending s) v
    (currentSection s) (scrollInProgress s) (pendingScroll s) (lastWheelTime s)
    (accumulatedDelta s) (touchStartX s) (touchStartY s) (timers s) (requests s).

Definition set_section (v : Z) (s : State) : State :=
  mkState (now s) (width s) (scrollLeft s) (anim s) (scrollPending s) (snapType s)
    v (scrollInProgress s) (pendingScroll s) (lastWheelTime s)
    (accumulatedDelta s) (touchStartX s) (touchStartY s) (timers s) (requests s).

Definition set_progress (b : bool) (p : option Z) (s : State) : State :=
  mkState (now s) (width s) (scrollLeft s) (anim s) (scrollPending s) (snapType s)
    (currentSection s) b p (lastWheelTime s)
    (accumulatedDelta s) (touchStartX s) (touchStartY s) (timers s) (requests s).

Definition set_wheel (last acc : Z) (s : State) : State :=
  mkState (now s) (width s) (scrollLeft s) (anim s) (scrollPending s) (snapType s)
    (currentSection s) (scrollInProgress s) (pendingScroll s) last
    acc (touchStartX s) (touchStartY s) (timers s) (requests s).

Definition set_touch (x y : Z) (s : State) : State :=
  mkState (now s) (width s) (scrollLeft s) (anim s) (scrollPending s) (snapType s)
    (currentSection s) (scrollInProgress s) (pendingScroll s) (lastWheelTime s)
    (accumulatedDelta s) x y (timers s) (requests s).

Definition set_timers (l : list Timer) (s : State) : State :=
  mkState (now s) (width s) (scrollLeft s) (anim s) (scrollPending s) (snapType s)
    (currentSection s) (scrollInProgress s) (pendingScroll s) (lastWheelTime s)
    (accumulatedDelta s) (touchStartX s) (touchStartY s) l (requests s).

Definition set_requests (l : list Z) (s : State) : State :=
  mkState (now s) (width s) (scrollLeft s) (anim s) (scrollPending s) (snapType s)
    (currentSection s) (scrollInProgress s) (pendingScroll s) (lastWheelTime s)
    (accumulatedDelta s) (touchStartX s) (touchStartY s) (timers s) l.

(** [Date.now()] when the page mounts: an epoch time in milliseconds. *)
Definition mountTime : Z := 1700000000000.

(** The component right after mount: first section, inline style
    [scrollSnapType: 'x mandatory'], no timer, [lastWheelTime = 0]. *)
Definition mount (viewportWidth : Z) : State :=
  mkState mountTime viewportWidth 0 None false "x mandatory"%string
    0 false None 0 0 0 0 [] [].

(** ** The scroll container *)

(** Content is [length sectionLabels] sections wide, the viewport one. *)
Definition maxScroll (s : State) : Z := maxIndex * width s.

Definition clampScroll (s : State) (x : Z) : Z := Z.max 0 (Z.min (maxScroll s) x).

(** [container.scrollTo({ left: x, behavior: 'auto' })]: moves at once,
    cancels a running smooth scroll, queues a [scroll] event on a change. *)
Definition scrollToAuto (x : Z) (s : State) : State :=
  let x' := clampScroll s x in
  set_scroll x' None (scrollPending s || negb (x' =? scrollLeft s)) s.

(** [container.scrollTo({ left: x, behavior: 'smooth' })]: replaces any
    running smooth scroll by one towards [x]; nothing to animate when the
    container is already there. *)
Definition scrollToSmooth (x : Z) (s : State) : State :=
  let x' := clampScroll s x in
  if x' =? scrollLeft s then set_scroll (scrollLeft s) None (scrollPending s) s
  else set_scroll (scrollLeft s) (Some x') (scrollPending s) s.

(** [container.scrollBy({ left: dx, behavior: 'smooth' })] *)
Definition scrollBySmooth (dx : Z) (s : State) : State :=
  scrollToSmooth (scrollLeft s + dx) s.

(** [setTimeout(cb, delay)] *)
Definition setTimeout (delay : Z) (c : Callback) (s : State) : State :=
  set_timers (timers s ++ [mkTimer (now s + delay) c]) s.

Definition isResizeOuter (t : Timer) : bool :=
  match cb t with CbResizeOuter => true | _ => false end.

Definition isWheel (t : Timer) : bool :=
  match cb t with CbWheel _ => true | _ => false end.

(** [clearTimeout] of the timeout held by a variable. *)
Definition clearTimeouts (p : Timer -> bool) (s : State) : State :=
  set_timers (filter (fun t => negb (p t)) (timers s)) s.

(** [setCurrentSection(v)]: a change re-renders; the resize effect's
    cleanup then runs [clearTimeout(resizeTimeout)]. *)
Definition setCurrentSection (v : Z) (s : State) : State :=
  if v =? currentSection s then s
  else clearTimeouts isResizeOuter (set_section v s).

Definition logRequest (index : Z) (s : State) : State :=
  set_requests (requests s ++ [index]) s.

(** ** [scrollToSection(index, cancelPrevious = true)] *)

Definition scrollDuration : Z := 800.

Definition scrollToSection (index : Z) (cancelPrevious : bool) (s : State) : State :=
  let clampedIndex := clampIndex index in
  (* If already scrolling to the same section, ignore *)
  if scrollInProgress s &&
     match pendingScroll s with Some p => p =? clampedIndex | None => false end
  then s
  else
    (* Cancel any ongoing scroll: jump to the current position *)
    let s := if cancelPrevious && scrollInProgress s
             then scrollToAuto (scrollLeft s) s else s in
    let sectionWidth := width s in
    let targetScroll := sectionWidth * clampedIndex in
    let s := set_progress true (Some clampedIndex) s in
    let originalSnapType := snapType s in
    let s := set_snapType "none"%string s in
    let s := setCurrentSection clampedIndex s in
    let s := scrollToSmooth targetScroll s in
    setTimeout scrollDuration (CbSettle sectionWidth clampedIndex originalSnapType) s.

(** [originalSnapType || ''] *)
Definition orEmpty (v : string) : string :=
  if String.eqb v "" then ""%string else v.

(** The settle timeout of [scrollToSection]. *)
Definition settle (sectionWidth clampedIndex : Z) (originalSnapType : string)
    (s : State) : State :=
  let currentScroll := scrollLeft s in
  let expectedScroll := sectionWidth * clampedIndex in
  let difference := Z.abs (currentScroll - expectedScroll) in
  let s := if 2 <? difference then scrollToSmooth expectedScroll s else s in
  let s := set_snapType (orEmpty originalSnapType) s in
  set_progress false None s.

(** A handler calling [scrollToSection(index)]. *)
Definition request (index : Z) (s : State) : State :=
  scrollToSection index true (logRequest index s).

(** ** Keyboard and touch *)

Inductive Key := ArrowRight | ArrowLeft | OtherKey.

Definition handleKey (k : Key) (s : State) : State :=
  match k with
  | ArrowRight => request (currentSection s + 1) s
  | ArrowLeft => request (currentSection s - 1) s
  | OtherKey => s
  end.

Definition handleTouchStart (clientX clientY : Z) (s : State) : State :=
  set_touch clientX clientY s.

Definition handleTouchEnd (clientX clientY : Z) (s : State) : State :=
  let dy := touchStartY s - clientY in
  let dx := touchStartX s - clientX in
  if (Z.abs dx <? Z.abs dy) && (50 <? Z.abs dy) then
    if (0 <? dy) && (currentSection s <? 4) then request (currentSection s + 1) s
    else if (dy <? 0) && (0 <? currentSection s) then request (currentSection s - 1) s
    else s
  else s.

(** ** Wheel *)

Definition WHEEL_THROTTLE : Z := 50.
Definition DELTA_THRESHOLD : Z := 50.

Definition handleWheel (deltaX deltaY : Z) (s : State) : State :=
  if Z.abs deltaX <? Z.abs deltaY then
    let timeSinceLastWheel := now s - lastWheelTime s in
    if scrollInProgress s && (timeSinceLastWheel <? 300) then s
    else
      let s := set_wheel (now s) (accumulatedDelta s + Z.abs deltaY) s in
      let s := clearTimeouts isWheel s in
      setTimeout WHEEL_THROTTLE (CbWheel deltaY) s
  else if 0 <? Z.abs deltaX then scrollBySmooth deltaX s
  else s.

(** [rapidScrollMultiplier] *)
Definition rapidScrollMultiplier (accumulatedDelta : Z) : Z :=
  if 200 <? accumulatedDelta then Z.min (accumulatedDelta / 200) 2 else 1.

(** [currentIndex + scrollDirection * rapidScrollMultiplier]; an infinite
    or [NaN] index absorbs the finite addend. *)
Definition addJs (v : JsIndex) (d : Z) : JsIndex :=
  match v with Idx i => Idx (i + d) | _ => v end.

(** [targetIndex !== currentIndex && targetIndex >= 0 &&
    targetIndex <= maxIndex]: the index passed to [scrollToSection], if
    any.  A clamped target is an integer or [NaN], and [NaN >= 0] is
    false. *)
Definition wheelTarget (targetIndex currentIndex : JsIndex) : option Z :=
  match targetIndex with
  | Idx t =>
      let same := match currentIndex with Idx c => t =? c | _ => false end in
      if negb same && (0 <=? t) && (t <=? maxIndex) then Some t else None
  | _ => None
  end.

(** The wheel timeout; [deltaY] is the one of the event that scheduled it. *)
Definition wheelTimeout (deltaY : Z) (s : State) : State :=
  if accumulatedDelta s <? DELTA_THRESHOLD then set_wheel (lastWheelTime s) 0 s
  else
    let sectionWidth := width s in
    let currentScroll := scrollLeft s in
    let scrollDirection := if 0 <? deltaY then 1 else -1 in
    let currentIndex := roundIndex currentScroll sectionWidth in
    let mult := rapidScrollMultiplier (accumulatedDelta s) in
    let targetIndex := clampJs (addJs currentIndex (scrollDirection * mult)) in
    let s := match wheelTarget targetIndex currentIndex with
             | Some t => request t s
             | None => s
             end in
    set_wheel (lastWheelTime s) 0 s.

(** ** Resize *)

Definition handleResize (s : State) : State :=
  setTimeout 150 CbResizeOuter (clearTimeouts isResizeOuter s).

(** The outer timeout schedules the layout-settle timeout; its closure holds
    the [currentSection] of the render that registered [handleResize]. *)
Definition resizeOuter (s : State) : State :=
  setTimeout 100 (CbResizeInner (currentSection s)) s.

Definition resizeInner (currentSection : Z) (s : State) : State :=
  let sectionWidth := width s in
  let targetScroll := sectionWidth * currentSection in
  if 10 <? Z.abs (scrollLeft s - targetScroll) then scrollToAuto targetScroll s
  else s.

(** The viewport changes width: the layout changes at once (the browser
    clamps [scrollLeft] to the new range) and the [resize] listener runs.
    Snapping is not modelled: this is the browser's behaviour while the
    inline snap type is 'none'; under 'x mandatory' a browser also re-snaps
    the container to its snap target after the layout change. *)
Definition resize (newWidth : Z) (s : State) : State :=
  let s := set_width newWidth s in
  let x := clampScroll s (scrollLeft s) in
  let s := set_scroll x (anim s) (scrollPending s || negb (x =? scrollLeft s)) s in
  handleResize s.

(** ** Frames *)

(** A smooth scroll reaches its target. *)
Definition animEnd (s : State) : State :=
  match anim s with
  | Some t =>
      let x := clampScroll s t in
      set_scroll x None (scrollPending s || negb (x =? scrollLeft s)) s
  | None => s
  end.

(** The [scroll] event and [handleScroll]'s animation-frame callback.
    The index is [NaN] only at width [0] ([0 / 0]); the code then calls
    [setCurrentSection(NaN)], a value the model's integer index does not
    have, so the model only consumes the event there.  The theorems about
    the index assume a positive width. *)
Definition frame (s : State) : State :=
  if scrollPending s then
    let sectionWidth := width s in
    let s' := set_scroll (scrollLeft s) (anim s) false s in
    match resolveIndex (scrollLeft s) sectionWidth with
    | Idx clampedIndex => setCurrentSection clampedIndex s'
    | _ => s'
    end
  else s.

(** ** Timers *)

Definition runCallback (c : Callback) (s : State) : State :=
  match c with
  | CbSettle w i o => settle w i o s
  | CbWheel dy => wheelTimeout dy s
  | CbResizeOuter => resizeOuter s
  | CbResizeInner c => resizeInner c s
  end.

Fixpoint minDue (l : list Timer) : option Z :=
  match l with
  | [] => None
  | t :: r => match minDue r with
              | Some m => Some (Z.min (due t) m)
              | None => Some (due t)
              end
  end.

(** Remove the first timer due at [d]. *)
Fixpoint takeDue (d : Z) (l : list Timer) : option (Timer * list Timer) :=
  match l with
  | [] => None
  | t :: r => if due t =? d then Some (t, r)
              else match takeDue d r with
                   | Some (t', r') => Some (t', t :: r')
                   | None => None
                   end
  end.

(** The next timer to fire no later than [limit]. *)
Definition nextTimer (limit : Z) (l : list Timer) : option (Timer * list Timer) :=
  match minDue l with
  | Some d => if d <=? limit then takeDue d l else None
  | None => None
  end.

(** Fire every timer due no later than [limit]; a firing adds at most one
    timer, so [2 * length (timers s)] firings suffice. *)
Fixpoint fireDue (fuel : nat) (limit : Z) (s : State) : State :=
  match fuel with
  | O => s
  | S f =>
      match nextTimer limit (timers s) with
      | Some (t, rest) =>
          fireDue f limit (runCallback (cb t) (set_timers rest (set_now (due t) s)))
      | None => s
      end
  end.

Definition wait (d : Z) (s : State) : State :=
  set_now (now s + d) (fireDue (2 * List.length (timers s)) (now s + d) s).

(** ** Events *)

Inductive Event :=
  | Wheel (deltaX deltaY : Z)
  | KeyDown (k : Key)
  | TouchStart (clientX clientY : Z)
  | TouchEnd (clientX clientY : Z)
  | Resize (newWidth : Z)
  | Click (index : Z)        (** a navigation button: [scrollToSection(index)] *)
  | AnimEnd
  | Frame
  | Wait (d : Z).

Definition step (s : State) (e : Event) : State :=
  match e with
  | Wheel dx dy => handleWheel dx dy s
  | KeyDown k => handleKey k s
  | TouchStart x y => handleTouchStart x y s
  | TouchEnd x y => handleTouchEnd x y s
  | Resize w => resize w s
  | Click i => request i s
  | AnimEnd => animEnd s
  | Frame => frame s
  | Wait d => wait d s
  end.

Definition run (s : State) (es : list Event) : State := fold_left step es s.

(** The page mounted at viewport width 1000 after a click on section [k]
    has settled: idle at [k]. *)
Definition settledAt (k : Z) : State :=
  run (mount 1000) [Click k; AnimEnd; Frame; Wait 800].

(** ** The resolver as the specification words it

    [raw = offset / pixelWidth] as a rational, [frac = raw mod 1], round up
    when [frac > 0.3], down otherwise, clamp to [0, N-1]. *)
Definition resolveSpec (offset pixelWidth : Z) : Z :=
  let raw := (inject_Z offset / inject_Z pixelWidth)%Q in
  let frac := (raw - inject_Z (Qfloor raw))%Q in
  clampIndex (if negb (Qle_bool frac (3 # 10)) then Qceiling raw else Qfloor raw).

(** Five wheel events of [deltaY = 20] with horizontal deltas
    [dx1 .. dx5], separated by the waits [g1 .. g4]. *)
Definition wheelBurst (dx1 dx2 dx3 dx4 dx5 g1 g2 g3 g4 : Z) : list Event :=
  [Wheel dx1 20; Wait g1; Wheel dx2 20; Wait g2; Wheel dx3 20; Wait g3;
   Wheel dx4 20; Wait g4; Wheel dx5 20].

(** A wheel burst in progress outside a transition: one wheel timeout
    pending, due [WHEEL_THROTTLE] ms after the last accepted event. *)
Definition burst (w sl : Z) (a : option Z) (sp : bool) (snap : string) (cur : Z)
    (ps : option Z) (tx ty : Z) (rq : list Z) (t acc last : Z) : State :=
  mkState t w sl a sp snap cur false ps last acc tx ty
    [mkTimer (last + WHEEL_THROTTLE) (CbWheel 20)] rq.

Ltac break_ifs :=
  repeat match goal with
  | |- context [if ?c then _ else _] => destruct c eqn:?
  end.

(** ** Further definitions: invariants of the controller and the listeners
    that decide native scrolling *)

(** The settle timeout of [scrollToSection]. *)
Definition isSettle (t : Timer) : bool :=
  match cb t with CbSettle _ _ _ => true | _ => false end.

(** How many pending timeouts satisfy [p]. *)
Definition countTimers (p : Timer -> bool) (l : list Timer) : nat :=
  List.length (filter p l).

(** Events a browser can deliver: viewport widths and elapsed times are
    non-negative. *)
Definition validEvent (e : Event) : Prop :=
  match e with
  | Resize w => 0 <= w
  | Wait d => 0 <= d
  | _ => True
  end.

(** Events that keep the viewport wide: every resize reports a positive
    width, so that [scrollLeft / sectionWidth] is never [0 / 0]. *)
Definition posWidthEvent (e : Event) : Prop :=
  match e with
  | Resize w => 0 < w
  | _ => True
  end.

(** Neither the wheel timeouts nor the outer resize timeouts grow in number. *)
Definition debounceLe (l l' : list Timer) : Prop :=
  (countTimers isWheel l' <= countTimers isWheel l)%nat /\
  (countTimers isResizeOuter l' <= countTimers isResizeOuter l)%nat.

(** At most one [wheelTimeout] and one [resizeTimeout] are pending. *)
Definition debounceOk (s : State) : Prop :=
  (countTimers isWheel (timers s) <= 1)%nat /\
  (countTimers isResizeOuter (timers s) <= 1)%nat.

(** A bound on the timeouts a timeout may still cause: the wheel and the
    outer resize timeouts schedule one more (a settle timeout, the layout
    settle timeout), the others none. *)
Definition timerWeight (t : Timer) : nat :=
  match cb t with CbWheel _ | CbResizeOuter => 2 | _ => 1 end.

Definition timersWeight (l : list Timer) : nat :=
  fold_right (fun t n => (timerWeight t + n)%nat) 0%nat l.

(** From [l] to [l']: every new timeout is due at [n] or later, and no
    settle timeout is cancelled. *)
Definition timersGrow (n : Z) (l l' : list Timer) : Prop :=
  (forall t, In t l' -> In t l \/ n <= due t) /\
  (forall t, In t l -> isSettle t = true -> In t l').

(** No timeout is overdue, and a running transition has its settle timeout
    pending within [scrollDuration]. *)
Definition settleOk (s : State) : Prop :=
  (forall t, In t (timers s) -> now s <= due t) /\
  (scrollInProgress s = true ->
   exists t, In t (timers s) /\ isSettle t = true /\ due t <= now s + scrollDuration).

(** Whether [handleWheel] (on the container) calls [preventDefault]: for a
    vertical-dominant event (before its transition gate), and for a
    horizontal one with a non-zero [deltaX]. *)
Definition handleWheelPrevents (deltaX deltaY : Z) : bool :=
  if Z.abs deltaX <? Z.abs deltaY then true else 0 <? Z.abs deltaX.

(** The document's [preventVerticalScroll] listener: it leaves events on or
    inside the container alone and prevents vertical-dominant ones. *)
Definition preventVerticalScroll (onContainer : bool) (deltaX deltaY : Z) : bool :=
  if onContainer then false else Z.abs deltaX <? Z.abs deltaY.

(** A wheel event's default action is prevented by the container's listener
    (which also stops propagation) or else by the document's. *)
Definition wheelDefaultPrevented (onContainer : bool) (deltaX deltaY : Z) : bool :=
  if onContainer && handleWheelPrevents deltaX deltaY then true
  else preventVerticalScroll onContainer deltaX deltaY.

(** [handleTouchMove]: prevents when [dy > dx && dy > 10]. *)
Definition handleTouchMovePrevents (clientX clientY : Z) (s : State) : bool :=
  let dy := Z.abs (clientY - touchStartY s) in
  let dx := Z.abs (clientX - touchStartX s) in
  (dx <? dy) && (10 <? dy).

(** The document's [preventTouchVerticalScroll]: prevents every touch move
    outside the container. *)
Definition preventTouchVerticalScroll (onContainer : bool) : bool := negb onContainer.

Definition touchMoveDefaultPrevented (onContainer : bool) (clientX clientY : Z) (s : State) : bool :=
  if onContainer && handleTouchMovePrevents clientX clientY s then true
  else preventTouchVerticalScroll onContainer.

(** Coherence of the refs: the in-progress flag is set exactly when a
    pending index is held, indices are in range, the accumulator is
    non-negative. *)
Definition refsOk (s : State) : Prop :=
  (scrollInProgress s = true <-> pendingScroll s <> None) /\
  (forall p, pendingScroll s = Some p -> 0 <= p <= maxIndex) /\
  0 <= currentSection s <= maxIndex /\ 0 <= accumulatedDelta s.

(** * Theorems *)







Lemma clampIndex_range (i : Z) : 0 <= clampIndex i <= maxIndex.
Proof. unfold clampIndex, maxIndex; simpl; lia. Qed.

Lemma rhe_bound (a b : Z) : 0 < b ->
  2 * a - b <= 2 * (roundHalfEven a b * b) <= 2 * a + b.
Proof.
  intros Hb. unfold roundHalfEven.
  pose proof (Z.div_mod a b ltac:(lia)) as Hd.
  pose proof (Z.mod_pos_bound a b Hb) as Hr.
  set (q := a / b) in *. set (r := a mod b) in *.
  destruct (b <? 2 * r) eqn:E1; destruct (2 * r =? b) eqn:E2; destruct (Z.odd q);
    cbn [orb andb]; rewrite ?Z.ltb_lt, ?Z.ltb_ge, ?Z.eqb_eq, ?Z.eqb_neq in *; nia.
Qed.

Lemma scaleFrac_pos (n d e : Z) : 0 < d -> 0 < snd (scaleFrac n d e).
Proof.
  intros Hd. unfold scaleFrac. destruct (0 <=? e) eqn:E; cbn [fst snd]; [lia|].
  rewrite Z.leb_gt in E.
  pose proof (Z.pow_pos_nonneg 2 (- e) ltac:(lia) ltac:(lia)). nia.
Qed.

Lemma scaleFrac_succ (n d e : Z) :
  fst (scaleFrac n d (e + 1)) * snd (scaleFrac n d e) =
  2 * fst (scaleFrac n d e) * snd (scaleFrac n d (e + 1)).
Proof.
  unfold scaleFrac.
  destruct (0 <=? e) eqn:E1; destruct (0 <=? e + 1) eqn:E2;
    rewrite ?Z.leb_le, ?Z.leb_gt in *; cbn [fst snd]; try lia.
  - rewrite Z.pow_add_r by lia. ring.
  - assert (e = -1) by lia. subst. cbn -[Z.mul]. ring.
  - replace (- e) with (- (e + 1) + 1) by lia.
    rewrite Z.pow_add_r by lia. ring.
Qed.

Lemma scaleFrac_e0 (n d : Z) : 0 < n -> 0 < d ->
  let e0 := 52 - (Z.log2 n - Z.log2 d) in
  2 ^ 51 * snd (scaleFrac n d e0) < fst (scaleFrac n d e0) < 2 ^ 53 * snd (scaleFrac n d e0).
Proof.
  intros Hn Hd e0.
  destruct (Z.log2_spec n Hn) as [Ln Un]. destruct (Z.log2_spec d Hd) as [Ld Ud].
  pose proof (Z.log2_nonneg n). pose proof (Z.log2_nonneg d).
  rewrite <- Z.add_1_r in Un, Ud.
  set (ln := Z.log2 n) in *. set (ld := Z.log2 d) in *.
  unfold scaleFrac. destruct (0 <=? e0) eqn:E; rewrite ?Z.leb_le, ?Z.leb_gt in E; cbn [fst snd].
  - assert (Hp : 2 ^ ln * 2 ^ e0 = 2 ^ 51 * 2 ^ (ld + 1)).
    { rewrite <- !Z.pow_add_r by lia. f_equal. unfold e0. lia. }
    assert (Hp' : 2 ^ (ln + 1) * 2 ^ e0 = 2 ^ 53 * 2 ^ ld).
    { rewrite <- !Z.pow_add_r by lia. f_equal. unfold e0. lia. }
    pose proof (Z.pow_pos_nonneg 2 e0 ltac:(lia) E).
    split; nia.
  - assert (Hp : 2 ^ 51 * (2 ^ (ld + 1) * 2 ^ (- e0)) = 2 ^ ln).
    { rewrite <- !Z.pow_add_r by lia. f_equal. unfold e0. lia. }
    assert (Hp' : 2 ^ (ln + 1) = 2 ^ 53 * (2 ^ ld * 2 ^ (- e0))).
    { rewrite <- !Z.pow_add_r by lia. f_equal. unfold e0. lia. }
    pose proof (Z.pow_pos_nonneg 2 (- e0) ltac:(lia) ltac:(lia)).
    split; nia.
Qed.

Lemma divPos_spec (n d : Z) : 0 < n -> 0 < d ->
  let e := snd (divPos n d) in
  0 < snd (scaleFrac n d e) /\
  2 ^ 52 * snd (scaleFrac n d e) <= fst (scaleFrac n d e) < 2 ^ 53 * snd (scaleFrac n d e) /\
  fst (divPos n d) = roundHalfEven (fst (scaleFrac n d e)) (snd (scaleFrac n d e)).
Proof.
  intros Hn Hd. pose proof (scaleFrac_e0 n d Hn Hd) as B. cbv zeta in B |- *.
  unfold divPos. cbv zeta. cbn [fst snd].
  set (e0 := 52 - (Z.log2 n - Z.log2 d)) in *.
  pose proof (scaleFrac_pos n d e0 Hd) as P0.
  pose proof (scaleFrac_pos n d (e0 + 1) Hd) as P1.
  pose proof (scaleFrac_succ n d e0) as S.
  destruct (fst (scaleFrac n d e0) / snd (scaleFrac n d e0) <? 2 ^ 52) eqn:E;
    rewrite ?Z.ltb_lt, ?Z.ltb_ge in E.
  - split; [exact P1|split; [|reflexivity]].
    assert (fst (scaleFrac n d e0) < 2 ^ 52 * snd (scaleFrac n d e0)).
    { pose proof (Z.div_mod (fst (scaleFrac n d e0)) (snd (scaleFrac n d e0)) ltac:(lia)).
      pose proof (Z.mod_pos_bound (fst (scaleFrac n d e0)) (snd (scaleFrac n d e0)) P0).
      nia. }
    split; nia.
  - split; [exact P0|split; [|reflexivity]].
    split; [|lia].
    pose proof (Z.div_mod (fst (scaleFrac n d e0)) (snd (scaleFrac n d e0)) ltac:(lia)).
    pose proof (Z.mod_pos_bound (fst (scaleFrac n d e0)) (snd (scaleFrac n d e0)) P0).
    nia.
Qed.

Lemma divPos_small (n d : Z) : 0 < n -> 0 < d -> n < 8 * d ->
  0 <= snd (divPos n d) /\ 2 ^ 52 * d <= n * 2 ^ snd (divPos n d) /\
  2 * (n * 2 ^ snd (divPos n d)) - d <= 2 * (fst (divPos n d) * d)
    <= 2 * (n * 2 ^ snd (divPos n d)) + d.
Proof.
  intros Hn Hd H8. destruct (divPos_spec n d Hn Hd) as (Pb & [L U] & M).
  cbv zeta in *. set (e := snd (divPos n d)) in *.
  unfold scaleFrac in *. destruct (0 <=? e) eqn:E; rewrite ?Z.leb_le, ?Z.leb_gt in E;
    cbn [fst snd] in *.
  - split; [lia|split; [lia|]]. rewrite M. apply rhe_bound; lia.
  - exfalso. assert (2 <= 2 ^ (- e)).
    { replace (- e) with (1 + (- e - 1)) by lia. rewrite Z.pow_add_r by lia.
      pose proof (Z.pow_pos_nonneg 2 (- e - 1) ltac:(lia) ltac:(lia)). lia. }
    nia.
Qed.

Lemma roundIndex_pos_eq (x w : Z) : 0 < x -> 0 < w ->
  roundIndex x w =
  if fracAbove (fst (divPos x w)) (snd (divPos x w))
  then Idx (ceilDbl (fst (divPos x w)) (snd (divPos x w)))
  else Idx (floorDbl (fst (divPos x w)) (snd (divPos x w))).
Proof.
  intros Hx Hw. unfold roundIndex.
  destruct (w =? 0) eqn:E1; [rewrite Z.eqb_eq in E1; lia|].
  destruct (x =? 0) eqn:E2; [rewrite Z.eqb_eq in E2; lia|].
  rewrite (Z.abs_eq x), (Z.abs_eq w) by lia.
  destruct (divPos x w) as [m e]. cbn [fst snd].
  replace (x <? 0) with false by (symmetry; apply Z.ltb_ge; lia).
  replace (w <? 0) with false by (symmetry; apply Z.ltb_ge; lia).
  reflexivity.
Qed.

Lemma pow2_54 : 2 ^ 54 = 18014398509481984.
Proof. reflexivity. Qed.

Lemma pow2_40 : 2 ^ 40 = 1099511627776.
Proof. reflexivity. Qed.

Lemma pow2_52 : 2 ^ 52 = 4503599627370496.
Proof. reflexivity. Qed.

(** Away from the tie at exactly 30 % of a section, the double computation
    rounds like the exact quotient. *)
Lemma roundIndex_interior (x w : Z) : 0 < x -> 0 < w -> x < 8 * w -> w <= 2 ^ 40 ->
  10 * (x mod w) <> 3 * w ->
  roundIndex x w = Idx (if 3 * w <? 10 * (x mod w) then x / w + 1 else x / w).
Proof.
  intros Hx Hw H8 H40 Htie. rewrite roundIndex_pos_eq by lia.
  destruct (divPos_small x w Hx Hw H8) as (He & Hn & Hlo & Hhi).
  set (m := fst (divPos x w)) in *. set (e := snd (divPos x w)) in *.
  pose proof (Z.pow_pos_nonneg 2 e ltac:(lia) He) as HP.
  set (P := 2 ^ e) in *.
  pose proof (Z.div_mod x w ltac:(lia)) as Hq. pose proof (Z.mod_pos_bound x w Hw) as Hr.
  set (q := x / w) in *. set (r := x mod w) in *.
  rewrite pow2_52 in Hn. rewrite pow2_40 in H40.
  assert (HP49 : 562949953421312 < P) by nia.
  assert (Hm1 : q * P <= m).
  { assert (w * (2 * (q * P - m)) <= w) by nia. nia. }
  assert (Hm2 : m < (q + 1) * P).
  { assert (w * (2 * (m - (q + 1) * P)) <= w - 2 * P) by nia. nia. }
  assert (Hfl : m / P = q).
  { symmetry. apply (Z.div_unique_pos m P q (m - q * P)); lia. }
  assert (Hmod : m mod P = m - q * P).
  { rewrite Z.mod_eq by lia. rewrite Hfl. lia. }
  unfold fracAbove, ceilDbl, floorDbl, thresholdMant, thresholdExp.
  fold P. rewrite Hmod, Hfl, pow2_54.
  replace (0 <=? e) with true by (symmetry; apply Z.leb_le; lia). cbn [andb].
  set (f := m - q * P) in *.
  destruct (3 * w <? 10 * r) eqn:E; rewrite ?Z.ltb_lt, ?Z.ltb_ge in E.
  - assert (Hf : 2 * r * P - w <= 2 * (w * f)) by (unfold f; nia).
    assert (HrP : 3 * (w * P) + P <= 10 * (r * P)) by nia.
    assert (Hwp : w * P <= 1099511627776 * P) by nia.
    assert (Ht : 5404319552844595 * P < f * 18014398509481984).
    { destruct (Z.lt_ge_cases (5404319552844595 * P) (f * 18014398509481984)) as [|C];
        [assumption|exfalso].
      assert (w * (f * 18014398509481984) <= w * (5404319552844595 * P))
        by (apply Z.mul_le_mono_nonneg_l; lia).
      nia. }
    replace (5404319552844595 * P <? f * 18014398509481984) with true
      by (symmetry; apply Z.ltb_lt; exact Ht).
    replace (f =? 0) with false by (symmetry; apply Z.eqb_neq; lia).
    reflexivity.
  - assert (Hf : 2 * (w * f) <= 2 * r * P + w) by (unfold f; nia).
    assert (HrP : 10 * (r * P) + P <= 3 * (w * P)) by nia.
    assert (Hwp : w * P <= 1099511627776 * P) by nia.
    assert (Ht : f * 18014398509481984 <= 5404319552844595 * P).
    { destruct (Z.lt_ge_cases (5404319552844595 * P) (f * 18014398509481984)) as [C|];
        [exfalso|assumption].
      assert (w * (5404319552844595 * P) < w * (f * 18014398509481984))
        by (apply Z.mul_lt_mono_pos_l; lia).
      nia. }
    replace (5404319552844595 * P <? f * 18014398509481984) with false
      by (symmetry; apply Z.ltb_ge; exact Ht).
    reflexivity.
Qed.

Lemma roundIndex_mult (k w : Z) : 0 < w -> 0 <= k < 8 -> roundIndex (w * k) w = Idx k.
Proof.
  intros Hw Hk. destruct (Z.eq_dec k 0) as [->|Hk0].
  - unfold roundIndex. rewrite Z.mul_0_r.
    destruct (w =? 0) eqn:E; [rewrite Z.eqb_eq in E; lia|reflexivity].
  - rewrite roundIndex_pos_eq by nia.
    destruct (divPos_spec (w * k) w ltac:(nia) Hw) as (_ & _ & M). cbv zeta in M.
    destruct (divPos_small (w * k) w ltac:(nia) Hw ltac:(nia)) as (He & _).
    set (e := snd (divPos (w * k) w)) in *. set (m := fst (divPos (w * k) w)) in *.
    pose proof (Z.pow_pos_nonneg 2 e ltac:(lia) He) as HP.
    unfold scaleFrac in M. replace (0 <=? e) with true in M by (symmetry; apply Z.leb_le; lia).
    cbn [fst snd] in M.
    assert (Hm : m = k * 2 ^ e).
    { rewrite M. unfold roundHalfEven.
      replace (w * k * 2 ^ e) with ((k * 2 ^ e) * w) by ring.
      rewrite Z.div_mul, Z.mod_mul by lia.
      replace (w <? 2 * 0) with false by (symmetry; apply Z.ltb_ge; lia).
      replace (2 * 0 =? w) with false by (symmetry; apply Z.eqb_neq; lia).
      reflexivity. }
    unfold fracAbove, ceilDbl, floorDbl. rewrite Hm, Z.mod_mul, Z.div_mul by lia.
    replace (0 <=? e) with true by (symmetry; apply Z.leb_le; lia).
    cbn [andb negb Z.eqb].
    replace (thresholdMant * 2 ^ e <? 0 * 2 ^ thresholdExp) with false
      by (symmetry; apply Z.ltb_ge; unfold thresholdMant; lia).
    reflexivity.
Qed.

Lemma roundIndex_big (x w : Z) : 0 < w -> 6 * w <= x ->
  exists i, roundIndex x w = Idx i /\ 6 <= i.
Proof.
  intros Hw Hx. rewrite roundIndex_pos_eq by lia.
  destruct (divPos_spec x w ltac:(lia) Hw) as (Pb & [L _] & M). cbv zeta in *.
  set (e := snd (divPos x w)) in *. set (m := fst (divPos x w)) in *.
  assert (Hfl : 6 <= floorDbl m e).
  { unfold floorDbl, scaleFrac in *.
    destruct (0 <=? e) eqn:E; rewrite ?Z.leb_le, ?Z.leb_gt in E; cbn [fst snd] in *.
    - pose proof (Z.pow_pos_nonneg 2 e ltac:(lia) E) as HP.
      pose proof (rhe_bound (x * 2 ^ e) w Hw) as B. rewrite <- M in B.
      assert (6 * 2 ^ e <= m).
      { assert (w * (2 * (6 * 2 ^ e - m)) <= w) by nia. nia. }
      apply Z.div_le_lower_bound; lia.
    - pose proof (Z.pow_pos_nonneg 2 (- e) ltac:(lia) ltac:(lia)) as HP.
      pose proof (rhe_bound x (w * 2 ^ (- e)) Pb) as B. rewrite <- M in B.
      rewrite pow2_52 in L.
      assert (4503599627370496 <= m).
      { assert (w * 2 ^ (- e) * (2 * (4503599627370496 - m)) <= w * 2 ^ (- e)) by nia.
        nia. }
      nia. }
  assert (floorDbl m e <= ceilDbl m e) by (unfold ceilDbl; destruct (_ && _); lia).
  destruct (fracAbove m e); eexists; split; try reflexivity; lia.
Qed.

Lemma resolveIndex_range (x w i : Z) : resolveIndex x w = Idx i -> 0 <= i <= maxIndex.
Proof.
  unfold resolveIndex. destruct (roundIndex x w); cbn [clampJs]; intros E;
    try discriminate; injection E as <-;
    [apply clampIndex_range | change maxIndex with 6; lia | change maxIndex with 6; lia].
Qed.

Lemma resolveIndex_mult (k w : Z) : 0 < w -> 0 <= k <= maxIndex ->
  resolveIndex (w * k) w = Idx k.
Proof.
  intros Hw Hk. unfold resolveIndex. rewrite roundIndex_mult
    by (unfold maxIndex in Hk; simpl in Hk; lia).
  cbn [clampJs]. f_equal. unfold clampIndex. lia.
Qed.

Lemma resolveIndex_big (x w : Z) : 0 < w -> maxIndex * w <= x ->
  resolveIndex x w = Idx maxIndex.
Proof.
  intros Hw Hx. change maxIndex with 6 in *.
  destruct (roundIndex_big x w Hw ltac:(lia)) as (i & E & Hi).
  unfold resolveIndex. rewrite E. cbn [clampJs]. f_equal. unfold clampIndex.
  change maxIndex with 6. lia.
Qed.

(** The specification's reading with exact rationals, in integers. *)
Lemma resolveSpec_int (x w : Z) : 0 <= x -> 0 < w ->
  resolveSpec x w = clampIndex (if 3 * w <? 10 * (x mod w) then x / w + 1 else x / w).
Proof.
  intros Hx Hw. destruct w as [|p|p]; try lia.
  unfold resolveSpec.
  unfold inject_Z, Qdiv, Qinv, Qmult, Qminus, Qplus, Qopp, Qle_bool,
    Qceiling, Qfloor; cbn -[Z.mul Z.add Z.div Z.modulo Z.opp Z.leb Z.ltb].
  rewrite ?Z.mul_1_r, ?Pos.mul_1_r.
  change (Z.pos (p + p~0)) with (3 * Z.pos p).
  pose proof (Z.div_mod x (Z.pos p) ltac:(lia)) as Hdm.
  pose proof (Z.mod_pos_bound x (Z.pos p) ltac:(lia)) as Hr.
  set (q := x / Z.pos p) in *; set (r := x mod Z.pos p) in *.
  f_equal.
  destruct (3 * Z.pos p <? 10 * r) eqn:E1;
    destruct ((x + - q * Z.pos p) * 10 <=? 3 * Z.pos p) eqn:E2;
    cbn [negb]; rewrite ?Z.ltb_lt, ?Z.ltb_ge, ?Z.leb_le, ?Z.leb_gt in *; try nia.
  - assert (- x / Z.pos p = - (q + 1)) as ->; [|lia].
    symmetry. apply (Z.div_unique_pos (- x) (Z.pos p) (- (q + 1)) (Z.pos p - r)); nia.
Qed.

(** [C4] (corrected) The resolver of [handleScroll] divides in double
    precision.  For a positive width up to [2^40] px and a non-negative
    offset, it agrees with the exact reading of the specification (round up
    when [raw mod 1 > 0.3], down otherwise, clamped to [0, N-1]) except at
    offsets exactly 30 % into a section, where the rounding of the double
    quotient decides.  Every offset at or beyond [(N-1) * pixelWidth] maps
    to [N-1], and at [pixelWidth = 1000] it maps 280 to 0, 320 to 1, 0 to 0
    and [999 * 1000] to [N-1]. *)
Theorem resolveIndex_spec (offset pixelWidth : Z)
    (Hoff : 0 <= offset) (Hw : 0 < pixelWidth) :
  (pixelWidth <= 2 ^ 40 -> 10 * (offset mod pixelWidth) <> 3 * pixelWidth ->
   resolveIndex offset pixelWidth = Idx (resolveSpec offset pixelWidth)) /\
  (maxIndex * pixelWidth <= offset -> resolveIndex offset pixelWidth = Idx maxIndex) /\
  resolveIndex 280 1000 = Idx 0 /\ resolveIndex 320 1000 = Idx 1 /\
  resolveIndex 0 1000 = Idx 0 /\ resolveIndex (999 * 1000) 1000 = Idx maxIndex.
Proof.
  split; [|split; [apply resolveIndex_big; exact Hw|repeat split; vm_compute; reflexivity]].
  intros H40 Htie.
  destruct (Z.lt_ge_cases offset (maxIndex * pixelWidth)) as [Hlt|Hge].
  - rewrite resolveSpec_int by lia.
    destruct (Z.eq_dec offset 0) as [->|H0].
    + unfold resolveIndex, roundIndex.
      destruct (pixelWidth =? 0) eqn:E; [rewrite Z.eqb_eq in E; lia|].
      rewrite Z.mod_0_l, Z.div_0_l by lia.
      replace (3 * pixelWidth <? 10 * 0) with false by (symmetry; apply Z.ltb_ge; lia).
      reflexivity.
    + change maxIndex with 6 in Hlt. unfold resolveIndex.
      rewrite roundIndex_interior by lia. reflexivity.
  - rewrite resolveIndex_big by lia. f_equal.
    rewrite resolveSpec_int by lia.
    change maxIndex with 6 in *.
    assert (6 <= offset / pixelWidth) by (apply Z.div_le_lower_bound; lia).
    unfold clampIndex. change maxIndex with 6.
    destruct (_ <? _); lia.
Qed.

Theorem resolveIndex_spec_witness :
  0 <= 320 /\ 0 < 1000 /\
  ((1000 <= 2 ^ 40 -> 10 * (320 mod 1000) <> 3 * 1000 ->
    resolveIndex 320 1000 = Idx (resolveSpec 320 1000)) /\
   (maxIndex * 1000 <= 320 -> resolveIndex 320 1000 = Idx maxIndex) /\
   resolveIndex 280 1000 = Idx 0 /\ resolveIndex 320 1000 = Idx 1 /\
   resolveIndex 0 1000 = Idx 0 /\ resolveIndex (999 * 1000) 1000 = Idx maxIndex).
Proof.
  split; [lia|split; [lia|]].
  apply (resolveIndex_spec 320 1000); lia.
Defined.

(** [C4] (counterexample) At [pixelWidth = 1000] and offset 1300,
    [raw mod 1] is exactly [0.3], so the specification rounds down to 1.
    The code computes [1300 / 1000 % 1] as [0.30000000000000004], which is
    greater than the double [0.3], and rounds up to 2.  At offset 300 the
    quotient is the double [0.3] itself and the code rounds down. *)
Theorem resolve_tie_rounds_up :
  10 * (1300 mod 1000) = 3 * 1000 /\
  resolveSpec 1300 1000 = 1 /\ resolveIndex 1300 1000 = Idx 2 /\
  resolveSpec 300 1000 = 0 /\ resolveIndex 300 1000 = Idx 0.
Proof. vm_compute. repeat split. Qed.

(** [C1] (code defect) [scrollToSection(2)] immediately followed by
    [scrollToSection(4)] from idle: the second call halts the first
    animation where it is, but the settle timeout of the first call is never
    cleared.  When the second animation has reached section 4 before the
    timeouts fire, the first timeout scrolls back towards [2 * width]; the
    second finds the container at its target, corrects nothing and clears
    the flags; the scroll back then lands and the final index is 2. *)
Theorem single_flight_final_index_two :
  let s1 := run (mount 1000) [Click 2; Click 4] in
  let s := run s1 [AnimEnd; Frame; Wait 800; AnimEnd; Frame] in
  anim (run (mount 1000) [Click 2]) = Some 2000 /\
  scrollLeft s1 = 0 /\ anim s1 = Some 4000 /\ currentSection s1 = 4 /\
  currentSection s = 2 /\ scrollLeft s = 2000 /\
  scrollInProgress s = false /\ pendingScroll s = None /\
  timers s = [] /\ anim s = None /\ scrollPending s = false.
Proof. vm_compute. repeat split; reflexivity. Qed.

(** [settle] always clears the flag and the pending index and writes back
    the snap type its closure captured. *)
Lemma settle_clears (w i : Z) (o : string) (s : State) :
  scrollInProgress (settle w i o s) = false /\
  pendingScroll (settle w i o s) = None /\
  snapType (settle w i o s) = orEmpty o.
Proof.
  unfold settle, scrollToSmooth, set_progress, set_snapType, set_scroll.
  break_ifs; simpl; auto.
Qed.

(** [C3] (code defect) Every settle timeout clears the flag and the pending
    index, but it restores the snap type read when its call started.  A
    second call made while the first is in flight reads ['none'] (set by the
    first), so once both timeouts have fired the inline snap type stays
    ['none']; later transitions read and restore ['none'] again. *)
Theorem settle_leaves_snap_disabled :
  let s := run (mount 1000) [Click 2; Click 4; Wait 800] in
  let s' := run s [AnimEnd; Frame; Click 5; AnimEnd; Frame; Wait 800] in
  (forall w i o st, scrollInProgress (settle w i o st) = false /\
                    pendingScroll (settle w i o st) = None) /\
  snapType (mount 1000) = "x mandatory"%string /\
  scrollInProgress s = false /\ pendingScroll s = None /\ timers s = [] /\
  snapType s = "none"%string /\
  scrollInProgress s' = false /\ timers s' = [] /\ snapType s' = "none"%string.
Proof.
  split.
  - intros w i o st. pose proof (settle_clears w i o st). tauto.
  - vm_compute. repeat split; reflexivity.
Qed.

(** [C7] (code defect) The touch-end handler moves forward only when
    [currentSection < 4], while there are seven sections: an upward swipe
    (startY 500, endY 300) at section 4 requests nothing, although the same
    swipe at section 3 requests section 4 and [ArrowRight] at section 4
    requests section 5. *)
Theorem touch_forward_blocked_at_four :
  requests (run (settledAt 4) [TouchStart 100 500; TouchEnd 100 300]) = [4] /\
  currentSection (settledAt 4) = 4 /\ 4 < maxIndex /\
  requests (run (settledAt 3) [TouchStart 100 500; TouchEnd 100 300]) = [3; 4] /\
  requests (run (settledAt 4) [KeyDown ArrowRight]) = [4; 5].
Proof. vm_compute. repeat split; reflexivity. Qed.

(** [C9] (code defect) The layout-settle timeout of [handleResize] uses the
    [currentSection] its closure captured when the outer timeout fired and is
    never cleared.  Resizing from 1000 to 500 px at section 3 and pressing
    [ArrowRight] between the two timeouts: the timeout scrolls to
    [3 * 500] (cancelling the animation to section 4) while the
    authoritative index is 4, and the next frame sets the index to 3.
    Without the key press the same resize corrects the offset to [3 * 500]
    and the index stays 3. *)
Theorem resize_uses_stale_index :
  let s := run (settledAt 3) [Resize 500; Wait 150; Wait 10; KeyDown ArrowRight; Wait 90] in
  currentSection s = 4 /\ width s = 500 /\ scrollLeft s = 1500 /\
  scrollLeft s <> currentSection s * width s /\ anim s = None /\
  currentSection (frame s) = 3 /\
  (let q := run (settledAt 3) [Resize 500; Wait 250; Frame] in
   currentSection q = 3 /\ scrollLeft q = 3 * width q /\ width q = 500).
Proof. vm_compute. repeat split; try reflexivity; discriminate. Qed.

(** Container operations, timers and [setCurrentSection] leave the
    controller's refs alone. *)
Lemma setTimeout_progress (d : Z) (c : Callback) (s : State) :
  scrollInProgress (setTimeout d c s) = scrollInProgress s /\
  pendingScroll (setTimeout d c s) = pendingScroll s /\
  requests (setTimeout d c s) = requests s.
Proof. repeat split. Qed.

Lemma scrollToSmooth_progress (x : Z) (s : State) :
  scrollInProgress (scrollToSmooth x s) = scrollInProgress s /\
  pendingScroll (scrollToSmooth x s) = pendingScroll s /\
  requests (scrollToSmooth x s) = requests s.
Proof. unfold scrollToSmooth; destruct (_ =? _); repeat split. Qed.

Lemma scrollToAuto_progress (x : Z) (s : State) :
  scrollInProgress (scrollToAuto x s) = scrollInProgress s /\
  pendingScroll (scrollToAuto x s) = pendingScroll s /\
  requests (scrollToAuto x s) = requests s.
Proof. repeat split. Qed.

Lemma setCurrentSection_progress (v : Z) (s : State) :
  scrollInProgress (setCurrentSection v s) = scrollInProgress s /\
  pendingScroll (setCurrentSection v s) = pendingScroll s /\
  requests (setCurrentSection v s) = requests s.
Proof. unfold setCurrentSection; destruct (_ =? _); repeat split. Qed.

Lemma scrollToSection_requests (index : Z) (c : bool) (s : State) :
  requests (scrollToSection index c s) = requests s.
Proof.
  unfold scrollToSection.
  destruct (_ && _); [reflexivity|].
  cbv zeta.
  rewrite (proj2 (proj2 (setTimeout_progress _ _ _))),
    (proj2 (proj2 (scrollToSmooth_progress _ _))),
    (proj2 (proj2 (setCurrentSection_progress _ _))).
  destruct (c && scrollInProgress s); reflexivity.
Qed.

(** [C10] [scrollToSection(index)] is total for every integer [index]: the
    index it records as pending is [clampIndex index], in [0, N-1]; when a
    transition to that clamped index is already in progress, the call
    returns the state unchanged. *)
Theorem scrollToSection_clamps_and_ignores_pending (index : Z) (cancelPrevious : bool)
    (s : State) :
  0 <= clampIndex index <= maxIndex /\
  pendingScroll (scrollToSection index cancelPrevious s) = Some (clampIndex index) /\
  scrollInProgress (scrollToSection index cancelPrevious s) = true /\
  (scrollInProgress s = true -> pendingScroll s = Some (clampIndex index) ->
   scrollToSection index cancelPrevious s = s).
Proof.
  split; [apply clampIndex_range|].
  unfold scrollToSection.
  destruct (scrollInProgress s &&
            match pendingScroll s with
            | Some p => p =? clampIndex index
            | None => false
            end) eqn:Hc.
  - apply andb_true_iff in Hc as [Hp Hq].
    destruct (pendingScroll s) as [p|] eqn:Hps; [|discriminate].
    apply Z.eqb_eq in Hq; subst p.
    repeat split; auto.
  - repeat split.
    + cbv zeta.
      rewrite (proj1 (proj2 (setTimeout_progress _ _ _))),
        (proj1 (proj2 (scrollToSmooth_progress _ _))),
        (proj1 (proj2 (setCurrentSection_progress _ _))).
      reflexivity.
    + cbv zeta.
      rewrite (proj1 (setTimeout_progress _ _ _)),
        (proj1 (scrollToSmooth_progress _ _)),
        (proj1 (setCurrentSection_progress _ _)).
      reflexivity.
    + intros H1 H2. rewrite H1, H2, Z.eqb_refl in Hc. discriminate.
Qed.

(** [C6] (as stated, refuted) The wheel timeout does not jump two sections
    as soon as the accumulated magnitude exceeds its rapid-scroll threshold
    [200]: with 300 accumulated from two events of 150 the multiplier is
    [min(floor(300 / 200), 2) = 1] and one section is requested. *)
Lemma wheel_rapid_threshold_jumps_one :
  200 < 300 /\ rapidScrollMultiplier 300 = 1 /\
  requests (run (mount 1000) [Wheel 0 150; Wait 10; Wheel 0 150; Wait 50]) = [1].
Proof. vm_compute. repeat split; reflexivity. Qed.

Lemma rapidScrollMultiplier_cases (acc : Z) (H : 50 <= acc) :
  (rapidScrollMultiplier acc = 1 /\ acc < 400) \/
  (rapidScrollMultiplier acc = 2 /\ 400 <= acc).
Proof.
  unfold rapidScrollMultiplier.
  destruct (200 <? acc) eqn:E.
  - apply Z.ltb_lt in E.
    destruct (Z.lt_ge_cases acc 400).
    + left. assert (acc / 200 = 1).
      { symmetry; apply Z.div_unique with (acc - 200); lia. }
      split; lia.
    + right. assert (2 <= acc / 200) by (apply Z.div_le_lower_bound; lia).
      split; lia.
  - apply Z.ltb_ge in E. left; split; lia.
Qed.

Lemma wheelTimeout_effect (deltaY : Z) (s : State) :
  accumulatedDelta (wheelTimeout deltaY s) = 0 /\
  (accumulatedDelta s < 50 ->
   wheelTimeout deltaY s = set_wheel (lastWheelTime s) 0 s) /\
  (50 <= accumulatedDelta s ->
   let jump := rapidScrollMultiplier (accumulatedDelta s) in
   ((jump = 1 /\ accumulatedDelta s < 400) \/ (jump = 2 /\ 400 <= accumulatedDelta s)) /\
   requests (wheelTimeout deltaY s) =
   requests s ++
     match roundIndex (scrollLeft s) (width s) with
     | Idx k =>
         let t := clampIndex (k + (if 0 <? deltaY then 1 else -1) * jump) in
         if t =? k then [] else [t]
     | PosInf => [maxIndex]
     | NegInf => [0]
     | NaN => []
     end).
Proof.
  unfold wheelTimeout.
  destruct (accumulatedDelta s <? DELTA_THRESHOLD) eqn:E;
    unfold DELTA_THRESHOLD in E.
  - apply Z.ltb_lt in E.
    split; [reflexivity|]. split; [auto|intros; lia].
  - apply Z.ltb_ge in E.
    split; [|split; [intros; lia|]].
    + destruct (wheelTarget _ _); reflexivity.
    + intros _. split; [apply rapidScrollMultiplier_cases; lia|].
      destruct (roundIndex (scrollLeft s) (width s)) as [k| | |];
        cbn [addJs clampJs].
      * cbn [wheelTarget]. set (t := clampIndex (k + (if 0 <? deltaY then 1 else -1) *
                             rapidScrollMultiplier (accumulatedDelta s))).
        pose proof (clampIndex_range (k + (if 0 <? deltaY then 1 else -1) *
                             rapidScrollMultiplier (accumulatedDelta s))) as Hr.
        fold t in Hr.
        assert (Hb : (0 <=? t) && (t <=? maxIndex) = true).
        { apply andb_true_iff; split; apply Z.leb_le; lia. }
        rewrite <- andb_assoc, Hb, andb_true_r.
        destruct (t =? k); simpl; [symmetry; apply app_nil_r|].
        unfold set_wheel; cbn [requests].
        unfold request; rewrite scrollToSection_requests; reflexivity.
      * change (wheelTarget (Idx maxIndex) PosInf) with (Some maxIndex).
        unfold set_wheel; cbn [requests].
        unfold request; rewrite scrollToSection_requests; reflexivity.
      * change (wheelTarget (Idx 0) NegInf) with (Some 0).
        unfold set_wheel; cbn [requests].
        unfold request; rewrite scrollToSection_requests; reflexivity.
      * symmetry; apply app_nil_r.
Qed.

(** [C6] (amended) When the wheel timeout fires, the accumulator is reset.
    Below [50] nothing else happens (no request).  Otherwise the jump is 1
    section for an accumulated magnitude below 400 and 2 from 400 on
    ([min(floor(acc / 200), 2)] once [acc > 200]), never more; the direction
    is the sign of the [deltaY] of the last accepted event; the target
    [clamp(currentIndex + direction * jump)] is requested once when it
    differs from the current index (the double-precision rounding of
    [scrollLeft / sectionWidth], as in [C4]), and nothing is requested
    otherwise.  At width 0 the current index is [NaN] for offset 0 and
    nothing is requested; an infinite index clamps to [0] or [N-1]. *)
Theorem wheelTimeout_decision (deltaY : Z) (s : State) :
  accumulatedDelta (wheelTimeout deltaY s) = 0 /\
  (accumulatedDelta s < 50 ->
   wheelTimeout deltaY s = set_wheel (lastWheelTime s) 0 s) /\
  (50 <= accumulatedDelta s ->
   let jump := rapidScrollMultiplier (accumulatedDelta s) in
   ((jump = 1 /\ accumulatedDelta s < 400) \/ (jump = 2 /\ 400 <= accumulatedDelta s)) /\
   requests (wheelTimeout deltaY s) =
   requests s ++
     match roundIndex (scrollLeft s) (width s) with
     | Idx k =>
         let t := clampIndex (k + (if 0 <? deltaY then 1 else -1) * jump) in
         if t =? k then [] else [t]
     | PosInf => [maxIndex]
     | NegInf => [0]
     | NaN => []
     end).
Proof. apply wheelTimeout_effect. Qed.

(** [C8] (as stated, refuted) A swipe that ends below its start (startY
    300, endY 500) at section 2 requests section 1, i.e. [advance(-1)], not
    [advance(+1)]. *)
Lemma touch_downward_goes_back :
  requests (run (settledAt 2) [TouchStart 100 300; TouchEnd 100 500]) = [2; 1].
Proof. vm_compute. reflexivity. Qed.

(** [C8] (amended) On touch-end, with [dy = startY - endY] and
    [dx = startX - endX]: unless [|dy| > |dx|] and [|dy| > 50] nothing
    happens; otherwise a swipe ending above its start requests
    [currentSection + 1] (for [currentSection < 4], the forward bound of
    the handler), and a swipe ending below its start requests
    [currentSection - 1] when [currentSection > 0] and nothing at
    section 0. *)
Theorem handleTouchEnd_remap (clientX clientY : Z) (s : State) :
  let dy := touchStartY s - clientY in
  let dx := touchStartX s - clientX in
  (~ (Z.abs dx < Z.abs dy /\ 50 < Z.abs dy) -> handleTouchEnd clientX clientY s = s) /\
  (Z.abs dx < Z.abs dy -> 50 < Z.abs dy -> clientY < touchStartY s ->
   currentSection s < 4 ->
   handleTouchEnd clientX clientY s = request (currentSection s + 1) s) /\
  (Z.abs dx < Z.abs dy -> 50 < Z.abs dy -> touchStartY s < clientY ->
   0 < currentSection s ->
   handleTouchEnd clientX clientY s = request (currentSection s - 1) s) /\
  (Z.abs dx < Z.abs dy -> 50 < Z.abs dy -> touchStartY s < clientY ->
   currentSection s <= 0 -> handleTouchEnd clientX clientY s = s).
Proof.
  cbv zeta. unfold handleTouchEnd.
  repeat split; intros;
    repeat match goal with
    | |- context [?a <? ?b] => destruct (Z.ltb_spec a b)
    end; simpl; try reflexivity; lia.
Qed.


(** ** Wheel coalescing *)

Lemma minDue_in (l : list Timer) (m : Z) :
  minDue l = Some m -> exists t, In t l /\ due t = m.
Proof.
  revert m; induction l as [|t r IH]; intros m H; simpl in H; [discriminate|].
  destruct (minDue r) as [m'|] eqn:E.
  - injection H as <-.
    destruct (Z.min_spec (due t) m') as [[_ ->]|[_ ->]].
    + exists t; simpl; auto.
    + destruct (IH m' eq_refl) as (t' & Hin & Hd). exists t'; simpl; auto.
  - injection H as <-. exists t; simpl; auto.
Qed.

Lemma fireDue_step (f : nat) (limit : Z) (s : State) :
  fireDue (S f) limit s =
  match nextTimer limit (timers s) with
  | Some (t, rest) =>
      fireDue f limit (runCallback (cb t) (set_timers rest (set_now (due t) s)))
  | None => s
  end.
Proof. reflexivity. Qed.

(** No timer due by [limit]: nothing fires. *)
Lemma fireDue_quiet (fuel : nat) (limit : Z) (s : State) :
  (forall t, In t (timers s) -> limit < due t) -> fireDue fuel limit s = s.
Proof.
  intros H. destruct fuel as [|f]; [reflexivity|]. simpl.
  unfold nextTimer.
  destruct (minDue (timers s)) as [m|] eqn:E; [|reflexivity].
  destruct (minDue_in _ _ E) as (t & Hin & Hd).
  specialize (H t Hin).
  destruct (Z.leb_spec m limit); [lia|reflexivity].
Qed.

Lemma setCurrentSection_timers (v : Z) (s : State) (t : Timer) :
  In t (timers (setCurrentSection v s)) -> In t (timers s).
Proof.
  unfold setCurrentSection, clearTimeouts.
  destruct (_ =? _); simpl; [auto|].
  intros H; apply filter_In in H; tauto.
Qed.

Lemma scrollToSection_timers (index : Z) (c : bool) (s : State) (t : Timer) :
  In t (timers (scrollToSection index c s)) ->
  In t (timers s) \/ due t = now s + scrollDuration.
Proof.
  unfold scrollToSection.
  destruct (_ && _); [auto|].
  cbv zeta. unfold setTimeout.
  set (s1 := if c && scrollInProgress s then scrollToAuto (scrollLeft s) s else s).
  assert (Hn1 : now s1 = now s /\ timers s1 = timers s)
    by (unfold s1; destruct (c && scrollInProgress s); split; reflexivity).
  set (s2 := setCurrentSection (clampIndex index)
               (set_snapType "none" (set_progress true (Some (clampIndex index)) s1))).
  assert (Hn2 : now s2 = now s /\ (forall t, In t (timers s2) -> In t (timers s))).
  { unfold s2, setCurrentSection, clearTimeouts.
    destruct (_ =? _); simpl; (split; [apply Hn1|]); intros t' Ht';
      [rewrite <- (proj2 Hn1); exact Ht'|].
    apply filter_In in Ht'; rewrite <- (proj2 Hn1); tauto. }
  assert (Hn3 : now (scrollToSmooth (width s1 * clampIndex index) s2) = now s /\
                timers (scrollToSmooth (width s1 * clampIndex index) s2) = timers s2).
  { unfold scrollToSmooth; destruct (_ =? _); split; apply Hn2 || reflexivity. }
  simpl. rewrite (proj2 Hn3), (proj1 Hn3).
  intros H; apply in_app_or in H as [H|[H|[]]].
  - left; apply (proj2 Hn2); exact H.
  - right; subst t; reflexivity.
Qed.

Lemma wheelTimeout_timers (deltaY : Z) (s : State) (t : Timer) :
  In t (timers (wheelTimeout deltaY s)) ->
  In t (timers s) \/ due t = now s + scrollDuration.
Proof.
  unfold wheelTimeout. cbv zeta.
  destruct (accumulatedDelta s <? DELTA_THRESHOLD); [cbn; auto|].
  destruct (wheelTarget _ _); cbn [set_wheel timers]; [|auto].
  unfold request. intros H.
  apply scrollToSection_timers in H. exact H.
Qed.

Lemma scrollToSection_settles (index : Z) (c : bool) (s : State) (t : Timer) :
  In t (timers (scrollToSection index c s)) -> In t (timers s) \/ isSettle t = true.
Proof.
  unfold scrollToSection.
  destruct (_ && _); [auto|].
  cbv zeta. unfold setTimeout.
  set (s1 := if c && scrollInProgress s then scrollToAuto (scrollLeft s) s else s).
  assert (Hn1 : timers s1 = timers s)
    by (unfold s1; destruct (c && scrollInProgress s); reflexivity).
  set (s2 := setCurrentSection (clampIndex index)
               (set_snapType "none" (set_progress true (Some (clampIndex index)) s1))).
  assert (Hn2 : forall t, In t (timers s2) -> In t (timers s)).
  { unfold s2, setCurrentSection, clearTimeouts.
    destruct (_ =? _); simpl; intros t' Ht'; [rewrite <- Hn1; exact Ht'|].
    apply filter_In in Ht'; rewrite <- Hn1; tauto. }
  assert (Hn3 : timers (scrollToSmooth (width s1 * clampIndex index) s2) = timers s2)
    by (unfold scrollToSmooth; destruct (_ =? _); reflexivity).
  simpl. rewrite Hn3.
  intros H; apply in_app_or in H as [H|[H|[]]].
  - left; apply Hn2; exact H.
  - right; subst t; reflexivity.
Qed.

Lemma wheelTimeout_settles (deltaY : Z) (s : State) (t : Timer) :
  In t (timers (wheelTimeout deltaY s)) -> In t (timers s) \/ isSettle t = true.
Proof.
  unfold wheelTimeout. cbv zeta.
  destruct (accumulatedDelta s <? DELTA_THRESHOLD); [cbn; auto|].
  destruct (wheelTarget _ _); cbn [set_wheel timers]; [|auto].
  unfold request. intros H.
  apply scrollToSection_settles in H. exact H.
Qed.

Lemma takeDue_split (d : Z) (l r : list Timer) (t : Timer) :
  takeDue d l = Some (t, r) -> exists l1 l2, l = l1 ++ t :: l2 /\ r = l1 ++ l2.
Proof.
  revert r; induction l as [|x l IH]; intros r H; simpl in H; [discriminate|].
  destruct (due x =? d).
  - injection H as <- <-. exists [], l. split; reflexivity.
  - destruct (takeDue d l) as [[t' r']|] eqn:E; [|discriminate].
    injection H as <- <-. destruct (IH r' eq_refl) as (l1 & l2 & -> & ->).
    exists (x :: l1), l2. split; reflexivity.
Qed.

Lemma nextTimer_split (limit : Z) (l r : list Timer) (t : Timer) :
  nextTimer limit l = Some (t, r) ->
  exists l1 l2, l = l1 ++ t :: l2 /\ r = l1 ++ l2.
Proof.
  unfold nextTimer. destruct (minDue l) as [m|]; [|discriminate].
  destruct (m <=? limit); [apply takeDue_split|discriminate].
Qed.

Lemma settle_fields (w i : Z) (o : string) (s : State) :
  requests (settle w i o s) = requests s /\
  accumulatedDelta (settle w i o s) = accumulatedDelta s /\
  timers (settle w i o s) = timers s.
Proof.
  unfold settle, scrollToSmooth. cbv zeta.
  destruct (2 <? _); [destruct (_ =? _)|]; repeat split.
Qed.

(** Settle timeouts neither request a section nor touch the wheel
    accumulator. *)
Lemma fireDue_settles (f : nat) (limit : Z) (s : State) :
  (forall t, In t (timers s) -> isSettle t = true) ->
  requests (fireDue f limit s) = requests s /\
  accumulatedDelta (fireDue f limit s) = accumulatedDelta s.
Proof.
  revert s; induction f as [|f IH]; intros s H; [split; reflexivity|].
  rewrite fireDue_step.
  destruct (nextTimer limit (timers s)) as [[t rest]|] eqn:E; [|split; reflexivity].
  destruct (nextTimer_split _ _ _ _ E) as (l1 & l2 & Hl & Hr).
  assert (Ht : isSettle t = true)
    by (apply H; rewrite Hl; apply in_or_app; right; left; reflexivity).
  unfold isSettle in Ht. destruct (cb t) as [w i o| | |]; try discriminate.
  cbn [runCallback].
  set (x := set_timers rest (set_now (due t) s)).
  destruct (settle_fields w i o x) as (R & A & T).
  destruct (IH (settle w i o x)) as [R' A'].
  - intros t' Ht'. rewrite T in Ht'. change (timers x) with rest in Ht'.
    apply H. rewrite Hl. rewrite Hr in Ht'.
    apply in_app_or in Ht' as [Ht'|Ht']; apply in_or_app; [left|right; right]; exact Ht'.
  - rewrite R', A', R, A. split; reflexivity.
Qed.

Section Burst.
Variables (w sl : Z) (a : option Z) (sp : bool) (snap : string) (cur : Z)
          (ps : option Z) (tx ty : Z) (rq : list Z).

Local Abbreviation burst := (burst w sl a sp snap cur ps tx ty rq).

Lemma burst_wheel (t acc last dx : Z) :
  Z.abs dx < 20 -> step (burst t acc last) (Wheel dx 20) = burst t (acc + 20) t.
Proof.
  intros Hdx. cbn [step]. unfold handleWheel.
  replace (Z.abs dx <? Z.abs 20) with true by (symmetry; apply Z.ltb_lt; exact Hdx).
  reflexivity.
Qed.

Lemma burst_wait (t acc last d : Z) :
  0 <= d -> t + d < last + WHEEL_THROTTLE ->
  step (burst t acc last) (Wait d) = burst (t + d) acc last.
Proof.
  intros Hd H. simpl. unfold wait.
  rewrite fireDue_quiet; [reflexivity|].
  intros tm [<-|[]]; simpl. exact H.
Qed.

Lemma burst_fire (t d k : Z) (Hd : WHEEL_THROTTLE <= d)
    (Hk : roundIndex sl w = Idx k) (Hk6 : 0 <= k < maxIndex) :
  let s := step (burst t 100 t) (Wait d) in
  requests s = rq ++ [k + 1] /\ accumulatedDelta s = 0.
Proof.
  cbv zeta. simpl step. unfold wait.
  change (now (burst t 100 t)) with t.
  change (2 * List.length (timers (burst t 100 t)))%nat with (S 1).
  rewrite fireDue_step. unfold nextTimer.
  change (timers (burst t 100 t)) with [mkTimer (t + WHEEL_THROTTLE) (CbWheel 20)].
  cbn [minDue due].
  replace (t + WHEEL_THROTTLE <=? t + d) with true by (symmetry; apply Z.leb_le; lia).
  cbn [takeDue due]. rewrite Z.eqb_refl. cbn [cb runCallback due].
  set (x := set_timers [] (set_now (t + WHEEL_THROTTLE) (burst t 100 t))).
  destruct (wheelTimeout_effect 20 x) as (Hacc & _ & Hreq).
  destruct (Hreq ltac:(simpl; lia)) as [_ Hr].
  change (roundIndex (scrollLeft x) (width x)) with (roundIndex sl w) in Hr.
  change (rapidScrollMultiplier (accumulatedDelta x)) with 1 in Hr.
  rewrite Hk in Hr. cbv zeta in Hr. change (0 <? 20) with true in Hr.
  cbv iota in Hr. rewrite Z.mul_1_l in Hr.
  assert (Hc : clampIndex (k + 1) = k + 1)
    by (unfold clampIndex; change maxIndex with 6 in *; lia).
  rewrite Hc in Hr.
  replace (k + 1 =? k) with false in Hr by (symmetry; apply Z.eqb_neq; lia).
  destruct (fireDue_settles 1 (t + d) (wheelTimeout 20 x)) as [R A].
  - intros tm Htm. apply wheelTimeout_settles in Htm as [[]|H]. exact H.
  - change (requests (set_now (t + d) (fireDue 1 (t + d) (wheelTimeout 20 x))))
      with (requests (fireDue 1 (t + d) (wheelTimeout 20 x))).
    change (accumulatedDelta (set_now (t + d) (fireDue 1 (t + d) (wheelTimeout 20 x))))
      with (accumulatedDelta (fireDue 1 (t + d) (wheelTimeout 20 x))).
    rewrite R, A, Hr. split; [reflexivity|exact Hacc].
Qed.

Lemma burst_start (n lw dx : Z) :
  Z.abs dx < 20 ->
  step (mkState n w sl a sp snap cur false ps lw 0 tx ty [] rq) (Wheel dx 20) =
  burst n 20 n.
Proof.
  intros Hdx. cbn [step]. unfold handleWheel.
  replace (Z.abs dx <? Z.abs 20) with true by (symmetry; apply Z.ltb_lt; exact Hdx).
  reflexivity.
Qed.
End Burst.

(** [C5] Outside a transition (where [handleWheel] drops events less than
    300 ms after the last accepted one), with no timer pending and an empty
    accumulator, five wheel events with [deltaY = 20] and
    [|deltaX| < |deltaY|], each less than 50 ms after the previous one, each
    add 20 to the accumulator and restart the wheel timeout: after them the
    accumulator holds 100, nothing has been requested, and exactly one
    timeout is pending, due 50 ms after the last event.  When it fires
    (any wait of 50 ms or more), one decision is made: with the current
    index [k] below [N-1], exactly one request, for [k + 1] (a jump of one
    section, since 100 is below the rapid-scroll threshold), and the
    accumulator is reset. *)
Theorem fiveWheels_single_request (s : State) (k dx1 dx2 dx3 dx4 dx5 g1 g2 g3 g4 d : Z)
    (Hidle : scrollInProgress s = false) (Htimers : timers s = [])
    (Hacc : accumulatedDelta s = 0)
    (Hdx : forallb (fun dx => Z.abs dx <? 20) [dx1; dx2; dx3; dx4; dx5] = true)
    (Hg : forallb (fun g => (0 <=? g) && (g <? WHEEL_THROTTLE)) [g1; g2; g3; g4] = true)
    (Hd : WHEEL_THROTTLE <= d)
    (Hk : roundIndex (scrollLeft s) (width s) = Idx k) (Hk6 : 0 <= k < maxIndex) :
  let mid := run s (wheelBurst dx1 dx2 dx3 dx4 dx5 g1 g2 g3 g4) in
  accumulatedDelta mid = 100 /\ requests mid = requests s /\
  timers mid = [mkTimer (now mid + WHEEL_THROTTLE) (CbWheel 20)] /\
  requests (run mid [Wait d]) = requests s ++ [k + 1] /\
  accumulatedDelta (run mid [Wait d]) = 0.
Proof.
  destruct s as [n w sl a sp snap cur ip ps lw acc tx ty tm rq].
  cbn [scrollInProgress timers accumulatedDelta scrollLeft width requests] in *.
  subst ip tm acc.
  cbn [forallb] in Hdx, Hg. unfold WHEEL_THROTTLE in Hg.
  repeat match goal with
  | H : _ && _ = true |- _ => apply andb_true_iff in H as [? ?]
  | H : (_ <? _) = true |- _ => apply Z.ltb_lt in H
  | H : (_ <=? _) = true |- _ => apply Z.leb_le in H
  end.
  unfold run, wheelBurst. cbn [fold_left].
  rewrite burst_start by lia.
  rewrite burst_wait by (unfold WHEEL_THROTTLE; lia).
  rewrite burst_wheel by lia.
  rewrite burst_wait by (unfold WHEEL_THROTTLE; lia).
  rewrite burst_wheel by lia.
  rewrite burst_wait by (unfold WHEEL_THROTTLE; lia).
  rewrite burst_wheel by lia.
  rewrite burst_wait by (unfold WHEEL_THROTTLE; lia).
  rewrite burst_wheel by lia.
  change (20 + 20 + 20 + 20 + 20) with 100.
  split; [reflexivity|split; [reflexivity|split; [reflexivity|]]].
  apply burst_fire; assumption.
Qed.

Theorem fiveWheels_single_request_witness :
  let s := settledAt 2 in
  scrollInProgress s = false /\ timers s = [] /\ accumulatedDelta s = 0 /\
  forallb (fun dx => Z.abs dx <? 20) [0; 3; -5; 0; 19] = true /\
  forallb (fun g => (0 <=? g) && (g <? WHEEL_THROTTLE)) [10; 49; 0; 25] = true /\
  WHEEL_THROTTLE <= 900 /\
  roundIndex (scrollLeft s) (width s) = Idx 2 /\ 0 <= 2 < maxIndex /\
  (let mid := run s (wheelBurst 0 3 (-5) 0 19 10 49 0 25) in
   accumulatedDelta mid = 100 /\ requests mid = requests s /\
   timers mid = [mkTimer (now mid + WHEEL_THROTTLE) (CbWheel 20)] /\
   requests (run mid [Wait 900]) = requests s ++ [2 + 1] /\
   accumulatedDelta (run mid [Wait 900]) = 0).
Proof.
  cbv zeta.
  split; [vm_compute; reflexivity|]. split; [vm_compute; reflexivity|].
  split; [vm_compute; reflexivity|]. split; [vm_compute; reflexivity|].
  split; [vm_compute; reflexivity|]. split; [unfold WHEEL_THROTTLE; lia|].
  split; [vm_compute; reflexivity|]. split; [change maxIndex with 6; lia|].
  apply fiveWheels_single_request;
    first [vm_compute; reflexivity | unfold WHEEL_THROTTLE; lia | change maxIndex with 6; lia].
Defined.

Section Reach.
Variable P : State -> Prop.
Variable valid : Event -> Prop.
Hypothesis P_request : forall i s, P s -> P (request i s).
Hypothesis P_touchStart : forall x y s, P s -> P (handleTouchStart x y s).
Hypothesis P_wheel : forall dx dy s, P s -> P (handleWheel dx dy s).
Hypothesis P_resize : forall w s, valid (Resize w) -> P s -> P (resize w s).
Hypothesis P_animEnd : forall s, P s -> P (animEnd s).
Hypothesis P_frame : forall s, P s -> P (frame s).
Hypothesis P_wait : forall d s, valid (Wait d) -> P s -> P (wait d s).

Lemma reach_step (s : State) (e : Event) : valid e -> P s -> P (step s e).
Proof.
  destruct e as [dx dy|k|x y|x y|w|i| | |d]; simpl; intros He Hs; auto.
  - destruct k; simpl; auto.
  - unfold handleTouchEnd.
    destruct (_ && _); [|exact Hs].
    destruct (_ && _); [auto|]. destruct (_ && _); auto.
Qed.

Lemma reach_run (s : State) (es : list Event) :
  Forall valid es -> P s -> P (run s es).
Proof.
  unfold run. revert s. induction es as [|e es IH]; intros s Hv Hs; simpl; [exact Hs|].
  inversion Hv; subst. apply IH; auto. apply reach_step; auto.
Qed.
End Reach.

Section Fire.
Variable P : State -> Prop.
Hypothesis P_fire : forall limit s t rest, P s ->
  nextTimer limit (timers s) = Some (t, rest) ->
  P (runCallback (cb t) (set_timers rest (set_now (due t) s))).
Hypothesis P_now : forall v s, P s -> P (set_now v s).

Lemma fire_preserves (fuel : nat) (limit : Z) (s : State) : P s -> P (fireDue fuel limit s).
Proof.
  revert s; induction fuel as [|f IH]; intros s Hs; [exact Hs|].
  rewrite fireDue_step.
  destruct (nextTimer limit (timers s)) as [[t rest]|] eqn:E; [|exact Hs].
  apply IH. eapply P_fire; eauto.
Qed.

Lemma wait_preserves (d : Z) (s : State) : P s -> P (wait d s).
Proof. intros Hs. unfold wait. apply P_now, fire_preserves, Hs. Qed.
End Fire.

Ltac solve_refs :=
  unfold refsOk, maxIndex in *; cbn -[clampIndex clampScroll resolveIndex] in *;
  intros (Hip & Hp & Hc & Ha); split; [|split; [|split]];
  [ first [exact Hip | split; intros; congruence]
  | intros ? Hq; first [injection Hq as <-; lia | apply Hp; exact Hq | discriminate]
  | lia | lia ].

Lemma refsOk_scrollToSection (i : Z) (c : bool) (s : State) :
  refsOk s -> refsOk (scrollToSection i c s).
Proof.
  destruct s as [n w sl a sp snap cur ip ps lw acc tx ty tm rq].
  unfold scrollToSection, setTimeout, scrollToSmooth, setCurrentSection,
    clearTimeouts, scrollToAuto.
  cbn -[clampIndex clampScroll].
  pose proof (clampIndex_range i) as Hr.
  break_ifs; solve_refs.
Qed.

Lemma refsOk_request (i : Z) (s : State) : refsOk s -> refsOk (request i s).
Proof. intros H. apply refsOk_scrollToSection. destruct s; exact H. Qed.

Lemma refsOk_wheelTimeout (dy : Z) (s : State) : refsOk s -> refsOk (wheelTimeout dy s).
Proof.
  intros H. unfold wheelTimeout. cbv zeta.
  destruct (_ <? _); [destruct s; revert H; solve_refs|].
  destruct (wheelTarget _ _) as [i|].
  - pose proof (refsOk_request i s H) as H'; revert H'; destruct (request i s).
    solve_refs.
  - destruct s; revert H; solve_refs.
Qed.

Lemma refsOk_fire (limit : Z) (s : State) (t : Timer) (rest : list Timer) :
  refsOk s -> nextTimer limit (timers s) = Some (t, rest) ->
  refsOk (runCallback (cb t) (set_timers rest (set_now (due t) s))).
Proof.
  intros H _.
  assert (H0 : refsOk (set_timers rest (set_now (due t) s))) by (destruct s; exact H).
  revert H0. generalize (set_timers rest (set_now (due t) s)) as s0. intros s0 H0.
  destruct (cb t) as [w i o|dy| |c]; simpl.
  - destruct s0; revert H0. unfold settle, scrollToSmooth. cbv zeta.
    cbn -[clampIndex clampScroll orEmpty]. break_ifs; solve_refs.
  - apply refsOk_wheelTimeout, H0.
  - destruct s0; revert H0; solve_refs.
  - unfold resizeInner, scrollToAuto. cbv zeta. destruct (_ <? _); destruct s0; revert H0; solve_refs.
Qed.

Lemma refsOk_step_ops :
  (forall x y s, refsOk s -> refsOk (handleTouchStart x y s)) /\
  (forall dx dy s, refsOk s -> refsOk (handleWheel dx dy s)) /\
  (forall w s, refsOk s -> refsOk (resize w s)) /\
  (forall s, refsOk s -> refsOk (animEnd s)) /\
  (forall s, refsOk s -> refsOk (frame s)).
Proof.
  split; [|split; [|split; [|split]]].
  - intros x y s; destruct s; solve_refs.
  - intros dx dy s. destruct s.
    unfold handleWheel, clearTimeouts, setTimeout, scrollBySmooth, scrollToSmooth.
    cbn -[clampScroll]. break_ifs; solve_refs.
  - intros w s. destruct s.
    unfold resize, handleResize, clearTimeouts, setTimeout. cbn -[clampScroll]. solve_refs.
  - intros s. destruct s. unfold animEnd. cbn -[clampScroll].
    destruct anim0; [break_ifs|]; solve_refs.
  - intros s. destruct s. unfold frame, setCurrentSection, clearTimeouts.
    cbn -[resolveIndex].
    destruct (resolveIndex scrollLeft0 width0) as [i| | |] eqn:Ei;
      [pose proof (resolveIndex_range _ _ _ Ei) as Hr|..]; break_ifs; solve_refs.
Qed.

Lemma Forall_True (es : list Event) : Forall (fun _ => True) es.
Proof. induction es; constructor; auto. Qed.

Lemma refsOk_run (s : State) (es : list Event) : refsOk s -> refsOk (run s es).
Proof.
  destruct refsOk_step_ops as (H1 & H2 & H3 & H4 & H5).
  apply (reach_run refsOk (fun _ => True)); auto using Forall_True.
  - exact refsOk_request.
  - intros d s' _. apply wait_preserves; [exact refsOk_fire|].
    intros v s0; destruct s0; exact (fun H => H).
Qed.

Ltac keep_width :=
  cbn -[clampIndex clampScroll resolveIndex roundIndex wheelTarget countTimers];
  break_ifs; cbn -[clampIndex clampScroll resolveIndex roundIndex wheelTarget countTimers];
  try reflexivity.

Lemma width_scrollToSection (i : Z) (c : bool) (s : State) :
  width (scrollToSection i c s) = width s.
Proof.
  destruct s. unfold scrollToSection, setTimeout, scrollToSmooth, setCurrentSection,
    clearTimeouts, scrollToAuto. keep_width.
Qed.

Lemma width_request (i : Z) (s : State) : width (request i s) = width s.
Proof. unfold request. rewrite width_scrollToSection. destruct s; reflexivity. Qed.

Lemma width_callback (c : Callback) (s : State) : width (runCallback c s) = width s.
Proof.
  destruct c as [w i o|dy| |c]; simpl.
  - destruct s. unfold settle, scrollToSmooth. keep_width.
  - unfold wheelTimeout. cbv zeta. destruct (_ <? _); [destruct s; reflexivity|].
    destruct (wheelTarget _ _) as [i|]; [|destruct s; reflexivity].
    rewrite <- (width_request i s). destruct (request i s); reflexivity.
  - destruct s. unfold resizeOuter, setTimeout, clearTimeouts. keep_width.
  - destruct s. unfold resizeInner, scrollToAuto. keep_width.
Qed.

Lemma posWidth_run (s : State) (es : list Event) :
  Forall posWidthEvent es -> 0 < width s -> 0 < width (run s es).
Proof.
  intros Hv. refine (reach_run (fun s => 0 < width s) posWidthEvent _ _ _ _ _ _ _ s es Hv).
  - intros i s0. rewrite width_request. auto.
  - intros x y s0. destruct s0; exact (fun H => H).
  - intros dx dy s0. destruct s0.
    unfold handleWheel, clearTimeouts, setTimeout, scrollBySmooth, scrollToSmooth.
    keep_width; auto.
  - intros w s0 Hw _. destruct s0. exact Hw.
  - intros s0. destruct s0. unfold animEnd. keep_width; destruct anim0; keep_width; auto.
  - intros s0. destruct s0. unfold frame, setCurrentSection, clearTimeouts.
    cbn -[resolveIndex]. destruct (resolveIndex scrollLeft0 width0); keep_width; auto.
  - intros d s0 _ H0. apply (wait_preserves (fun s => 0 < width s)); [| |exact H0].
    + intros limit s1 t rest H _. rewrite width_callback. destruct s1; exact H.
    + intros v s1; destruct s1; exact (fun H => H).
Qed.

Lemma countTimers_app (p : Timer -> bool) (l1 l2 : list Timer) :
  countTimers p (l1 ++ l2) = (countTimers p l1 + countTimers p l2)%nat.
Proof. unfold countTimers. rewrite filter_app, length_app. reflexivity. Qed.

Lemma countTimers_filter (p q : Timer -> bool) (l : list Timer) :
  (countTimers p (filter q l) <= countTimers p l)%nat.
Proof.
  unfold countTimers. induction l as [|t l IH]; simpl; [lia|].
  destruct (q t); simpl; destruct (p t); simpl; lia.
Qed.

Lemma countTimers_cleared (p : Timer -> bool) (l : list Timer) :
  countTimers p (filter (fun t => negb (p t)) l) = 0%nat.
Proof.
  unfold countTimers. induction l as [|t l IH]; simpl; [reflexivity|].
  destruct (p t) eqn:E; simpl; [exact IH|]. rewrite E. exact IH.
Qed.

Lemma countTimers_one (p : Timer -> bool) (t : Timer) :
  countTimers p [t] = if p t then 1%nat else 0%nat.
Proof. unfold countTimers; simpl; destruct (p t); reflexivity. Qed.

Ltac solve_debounce :=
  unfold debounceLe; cbn -[countTimers];
  rewrite ?countTimers_app, ?countTimers_one, ?countTimers_cleared;
  cbn [isWheel isResizeOuter cb];
  repeat match goal with
  | |- context [countTimers ?p (filter ?q ?l)] =>
      generalize (countTimers_filter p q l);
      generalize (countTimers p (filter q l)); intros
  end;
  lia.

Lemma debounce_scrollToSection (i : Z) (c : bool) (s : State) :
  debounceLe (timers s) (timers (scrollToSection i c s)).
Proof.
  destruct s as [n w sl a sp snap cur ip ps lw acc tx ty tm rq].
  unfold scrollToSection, setTimeout, scrollToSmooth, setCurrentSection,
    clearTimeouts, scrollToAuto.
  cbn -[clampIndex clampScroll countTimers].
  break_ifs; solve_debounce.
Qed.

Lemma debounceLe_trans (l1 l2 l3 : list Timer) :
  debounceLe l1 l2 -> debounceLe l2 l3 -> debounceLe l1 l3.
Proof. unfold debounceLe; lia. Qed.

Lemma debounceLe_refl (l : list Timer) : debounceLe l l.
Proof. unfold debounceLe; lia. Qed.

Lemma debounceOk_le (s s' : State) :
  debounceLe (timers s) (timers s') -> debounceOk s -> debounceOk s'.
Proof. unfold debounceLe, debounceOk; lia. Qed.

Lemma debounce_request (i : Z) (s : State) :
  debounceLe (timers s) (timers (request i s)).
Proof. apply (debounce_scrollToSection i true (logRequest i s)). Qed.

Lemma debounce_callback (c : Callback) (s : State) :
  debounceLe (timers s) (timers (runCallback c s)).
Proof.
  destruct c as [w i o|dy| |c]; simpl.
  - destruct s. unfold settle, scrollToSmooth. cbv zeta.
    cbn -[clampScroll orEmpty countTimers]. break_ifs; apply debounceLe_refl.
  - unfold wheelTimeout. cbv zeta.
    destruct (_ <? _); [apply debounceLe_refl|].
    destruct (wheelTarget _ _); [|apply debounceLe_refl].
    apply debounce_request.
  - destruct s; unfold resizeOuter, setTimeout. solve_debounce.
  - unfold resizeInner, scrollToAuto. cbv zeta. destruct (_ <? _); apply debounceLe_refl.
Qed.

Lemma debounce_fire (limit : Z) (s : State) (t : Timer) (rest : list Timer) :
  nextTimer limit (timers s) = Some (t, rest) ->
  debounceLe (timers s) (timers (runCallback (cb t) (set_timers rest (set_now (due t) s)))).
Proof.
  intros H. eapply debounceLe_trans; [|apply debounce_callback].
  destruct (nextTimer_split _ _ _ _ H) as (l1 & l2 & E1 & E2).
  cbn [timers set_timers]. rewrite E1, E2.
  change (t :: l2) with ([t] ++ l2).
  unfold debounceLe. rewrite !countTimers_app, !countTimers_one.
  destruct (isWheel t), (isResizeOuter t); lia.
Qed.

Lemma debounceOk_run (s : State) (es : list Event) : debounceOk s -> debounceOk (run s es).
Proof.
  refine (reach_run debounceOk (fun _ => True) _ _ _ _ _ _ _ s es (Forall_True es)).
  - intros i s0. apply debounceOk_le, debounce_request.
  - intros x y s0. destruct s0; exact (fun H => H).
  - intros dx dy s0. destruct s0 as [n w sl a sp snap cur ip ps lw acc tx ty tm rq].
    unfold debounceOk, handleWheel, clearTimeouts, setTimeout, scrollBySmooth, scrollToSmooth.
    cbn -[clampScroll countTimers].
    break_ifs; try exact (fun H => H);
      rewrite ?countTimers_app, ?countTimers_one, ?countTimers_cleared;
      cbn [timers set_timers set_wheel];
      rewrite ?countTimers_app, ?countTimers_one, ?countTimers_cleared;
      cbn [isWheel isResizeOuter cb];
      pose proof (countTimers_filter isResizeOuter (fun t => negb (isWheel t)) tm); lia.
  - intros w s0 _. destruct s0 as [n w' sl a sp snap cur ip ps lw acc tx ty tm rq].
    unfold debounceOk, resize, handleResize, clearTimeouts, setTimeout.
    cbn -[clampScroll countTimers].
    rewrite ?countTimers_app, ?countTimers_one, ?countTimers_cleared;
      cbn [isWheel isResizeOuter cb].
    pose proof (countTimers_filter isWheel (fun t => negb (isResizeOuter t)) tm); lia.
  - intros s0. unfold animEnd. destruct s0, anim0; exact (fun H => H).
  - intros s0. apply debounceOk_le. destruct s0.
    unfold frame, setCurrentSection, clearTimeouts. cbn -[resolveIndex countTimers].
    destruct (resolveIndex _ _); break_ifs; solve_debounce.
  - intros d s0 _. apply wait_preserves.
    + intros limit s1 t rest H1 H2. exact (debounceOk_le _ _ (debounce_fire _ _ _ _ H2) H1).
    + intros v s1; destruct s1; exact (fun H => H).
Qed.

Ltac simpl_fields :=
  cbn [set_timers set_wheel set_now set_scroll set_touch set_width
       set_progress set_snapType set_section set_requests
       now width scrollLeft anim scrollPending snapType currentSection
       scrollInProgress pendingScroll lastWheelTime accumulatedDelta
       touchStartX touchStartY timers requests] in *.

Lemma timersWeight_app (l1 l2 : list Timer) :
  timersWeight (l1 ++ l2) = (timersWeight l1 + timersWeight l2)%nat.
Proof. induction l1 as [|t l IH]; simpl; [reflexivity|]. rewrite IH; lia. Qed.

Lemma timersWeight_filter (q : Timer -> bool) (l : list Timer) :
  (timersWeight (filter q l) <= timersWeight l)%nat.
Proof. induction l as [|t l IH]; simpl; [lia|]. destruct (q t); simpl; lia. Qed.

Lemma timersWeight_length (l : list Timer) :
  (List.length l <= timersWeight l <= 2 * List.length l)%nat.
Proof.
  induction l as [|t l IH]; simpl; [lia|].
  unfold timerWeight; destruct (cb t); lia.
Qed.

Ltac solve_weight :=
  simpl_fields;
  rewrite ?timersWeight_app; cbn [timersWeight fold_right timerWeight cb];
  repeat match goal with
  | |- context [timersWeight (filter ?q ?l)] =>
      generalize (timersWeight_filter q l);
      generalize (timersWeight (filter q l)); intros
  end;
  lia.

Lemma weight_scrollToSection (i : Z) (c : bool) (s : State) :
  (timersWeight (timers (scrollToSection i c s)) <= timersWeight (timers s) + 1)%nat.
Proof.
  destruct s as [n w sl a sp snap cur ip ps lw acc tx ty tm rq].
  unfold scrollToSection, setTimeout, scrollToSmooth, setCurrentSection,
    clearTimeouts, scrollToAuto.
  cbn -[clampIndex clampScroll timersWeight].
  break_ifs; solve_weight.
Qed.

(** A callback adds weight [timerWeight - 1] at most. *)
Lemma weight_callback (t : Timer) (s : State) :
  (timersWeight (timers (runCallback (cb t) s)) + 1 <=
   timersWeight (timers s) + timerWeight t)%nat.
Proof.
  unfold timerWeight. destruct (cb t) as [w i o|dy| |c]; simpl.
  - destruct s. unfold settle, scrollToSmooth. cbv zeta.
    cbn -[clampScroll orEmpty timersWeight]. break_ifs; solve_weight.
  - unfold wheelTimeout. cbv zeta.
    destruct (_ <? _); [destruct s; solve_weight|].
    destruct (wheelTarget _ _).
    + unfold request.
      match goal with |- context [scrollToSection ?i ?c ?x] =>
        pose proof (weight_scrollToSection i c x) as Hs;
        change (timers x) with (timers s) in Hs
      end.
      simpl_fields. lia.
    + destruct s; solve_weight.
  - destruct s; unfold resizeOuter, setTimeout. solve_weight.
  - unfold resizeInner, scrollToAuto. cbv zeta. destruct (_ <? _); destruct s; solve_weight.
Qed.

Lemma minDue_le (l : list Timer) (t : Timer) :
  In t l -> exists m, minDue l = Some m /\ m <= due t.
Proof.
  induction l as [|x l IH]; intros H; [destruct H|].
  simpl. destruct H as [<-|H].
  - destruct (minDue l) as [m|]; eexists; split; [reflexivity| |reflexivity|]; lia.
  - destruct (IH H) as (m & E & Hm). rewrite E. eexists; split; [reflexivity|]. lia.
Qed.

Lemma takeDue_found (d : Z) (l : list Timer) (t : Timer) :
  In t l -> due t = d -> exists p, takeDue d l = Some p.
Proof.
  induction l as [|x l IH]; intros H Hd; [destruct H|].
  simpl. destruct (due x =? d) eqn:Ex; [eexists; reflexivity|].
  destruct H as [<-|H]; [apply Z.eqb_neq in Ex; contradiction|].
  destruct (IH H Hd) as ([t' r'] & ->). eexists; reflexivity.
Qed.

Lemma fireDue_drains (fuel : nat) (limit : Z) (s : State) :
  (timersWeight (timers s) <= fuel)%nat ->
  forall t, In t (timers (fireDue fuel limit s)) -> limit < due t.
Proof.
  revert s; induction fuel as [|f IH]; intros s Hw t Ht.
  - simpl in Ht. pose proof (timersWeight_length (timers s)).
    destruct (timers s); [destruct Ht|simpl in *; lia].
  - rewrite fireDue_step in Ht.
    destruct (nextTimer limit (timers s)) as [[t0 rest]|] eqn:E.
    + refine (IH _ _ t Ht).
      pose proof (weight_callback t0 (set_timers rest (set_now (due t0) s))).
      destruct (nextTimer_split _ _ _ _ E) as (l1 & l2 & E1 & E2).
      revert H. simpl_fields. rewrite E1 in Hw. rewrite E2.
      rewrite timersWeight_app in *. simpl in Hw. lia.
    + destruct (minDue_le _ _ Ht) as (m & Em & Hm).
      unfold nextTimer in E. rewrite Em in E.
      destruct (Z.leb_spec m limit); [|lia].
      destruct (minDue_in _ _ Em) as (t1 & Hin & Hd).
      destruct (takeDue_found m (timers s) t1 Hin Hd) as (p & Ep).
      rewrite Ep in E. discriminate.
Qed.

Lemma timersGrow_refl (n : Z) (l : list Timer) : timersGrow n l l.
Proof. split; auto. Qed.

Lemma timersGrow_trans (n : Z) (l1 l2 l3 : list Timer) :
  timersGrow n l1 l2 -> timersGrow n l2 l3 -> timersGrow n l1 l3.
Proof.
  intros [A1 B1] [A2 B2]. split; [|auto].
  intros t Ht. destruct (A2 t Ht) as [H|H]; auto.
Qed.

Lemma timersGrow_add (n : Z) (l : list Timer) (t : Timer) :
  n <= due t -> timersGrow n l (l ++ [t]).
Proof.
  intros Hd. split.
  - intros t' Ht'. apply in_app_or in Ht' as [H|[<-|[]]]; auto.
  - intros t' Ht' _. apply in_or_app; auto.
Qed.

Lemma timersGrow_clear (n : Z) (p : Timer -> bool) (l : list Timer) :
  (forall t, isSettle t = true -> p t = false) ->
  timersGrow n l (filter (fun t => negb (p t)) l).
Proof.
  intros Hp. split.
  - intros t Ht. apply filter_In in Ht. tauto.
  - intros t Ht Hs. apply filter_In. rewrite (Hp t Hs). auto.
Qed.

Lemma settle_not_wheel (t : Timer) : isSettle t = true -> isWheel t = false.
Proof. unfold isSettle, isWheel. destruct (cb t); congruence. Qed.

Lemma settle_not_outer (t : Timer) : isSettle t = true -> isResizeOuter t = false.
Proof. unfold isSettle, isResizeOuter. destruct (cb t); congruence. Qed.

Lemma setCurrentSection_grow (v : Z) (s : State) :
  timersGrow (now s) (timers s) (timers (setCurrentSection v s)) /\
  now (setCurrentSection v s) = now s /\
  scrollInProgress (setCurrentSection v s) = scrollInProgress s.
Proof.
  unfold setCurrentSection. destruct (_ =? _).
  - split; [apply timersGrow_refl|auto].
  - split; [|split; reflexivity].
    apply timersGrow_clear, settle_not_outer.
Qed.

Lemma scrollToSection_grow (i : Z) (c : bool) (s : State) :
  timersGrow (now s) (timers s) (timers (scrollToSection i c s)) /\
  now (scrollToSection i c s) = now s /\
  (scrollToSection i c s = s \/
   exists t, In t (timers (scrollToSection i c s)) /\ isSettle t = true /\
             due t = now s + scrollDuration).
Proof.
  unfold scrollToSection.
  destruct (_ && _); [split; [apply timersGrow_refl|auto]|].
  cbv zeta. unfold setTimeout.
  set (s1 := if c && scrollInProgress s then scrollToAuto (scrollLeft s) s else s).
  assert (Hn1 : now s1 = now s /\ timers s1 = timers s)
    by (unfold s1; destruct (c && scrollInProgress s); split; reflexivity).
  set (s2 := set_snapType "none" (set_progress true (Some (clampIndex i)) s1)).
  destruct (setCurrentSection_grow (clampIndex i) s2) as (G & N & _).
  set (s3 := setCurrentSection (clampIndex i) s2) in *.
  assert (Hn3 : now (scrollToSmooth (width s1 * clampIndex i) s3) = now s3 /\
                timers (scrollToSmooth (width s1 * clampIndex i) s3) = timers s3)
    by (unfold scrollToSmooth; destruct (_ =? _); split; reflexivity).
  simpl_fields. rewrite (proj1 Hn3), (proj2 Hn3), N.
  change (now s2) with (now s1) in N, G |- *. change (timers s2) with (timers s1) in G.
  rewrite (proj1 Hn1) in *. rewrite (proj2 Hn1) in G.
  split; [|split; [reflexivity|right]].
  - eapply timersGrow_trans; [exact G|]. apply timersGrow_add. simpl. unfold scrollDuration; lia.
  - eexists; split; [apply in_or_app; right; left; reflexivity|]. split; reflexivity.
Qed.

Lemma settleOk_grow (s r : State) :
  settleOk s -> now r = now s -> timersGrow (now s) (timers s) (timers r) ->
  (scrollInProgress r = true -> scrollInProgress s = true) -> settleOk r.
Proof.
  intros [F S] Hn [G1 G2] Hf. unfold settleOk. rewrite Hn. split.
  - intros t Ht. destruct (G1 t Ht) as [H|H]; auto.
  - intros Hr. destruct (S (Hf Hr)) as (t & Ht & Hs & Hd). exists t; auto.
Qed.

Lemma settleOk_scrollToSection (i : Z) (c : bool) (s : State) :
  settleOk s -> settleOk (scrollToSection i c s).
Proof.
  intros Hs. destruct (scrollToSection_grow i c s) as (G & N & [E|(t & Ht & Hst & Hd)]).
  - rewrite E. exact Hs.
  - split.
    + intros t' Ht'. rewrite N. destruct (proj1 G t' Ht') as [H|H]; [apply (proj1 Hs)|]; auto.
    + intros _. exists t. rewrite N. split; [exact Ht|split; [exact Hst|lia]].
Qed.

Lemma settleOk_request (i : Z) (s : State) : settleOk s -> settleOk (request i s).
Proof. intros H. apply settleOk_scrollToSection. destruct s; exact H. Qed.

Lemma settleOk_callback (c : Callback) (s : State) :
  settleOk s -> settleOk (runCallback c s).
Proof.
  intros Hs. destruct c as [w i o|dy| |c]; simpl.
  - destruct s. unfold settle, scrollToSmooth. cbv zeta.
    cbn -[clampScroll orEmpty]. destruct Hs as [F _].
    break_ifs; (split; [exact F|intros; discriminate]).
  - unfold wheelTimeout. cbv zeta.
    destruct (_ <? _); [destruct s; exact Hs|].
    destruct (wheelTarget _ _).
    + match goal with |- settleOk (set_wheel _ _ (request ?i s)) =>
        pose proof (settleOk_request i s Hs) as H'; revert H'; destruct (request i s)
      end. exact (fun H => H).
    + destruct s; exact Hs.
  - apply (settleOk_grow s); [exact Hs|reflexivity| |auto].
    apply timersGrow_add. simpl. lia.
  - unfold resizeInner, scrollToAuto. cbv zeta. destruct (_ <? _); destruct s; exact Hs.
Qed.

Lemma takeDue_due (d : Z) (l r : list Timer) (t : Timer) :
  takeDue d l = Some (t, r) -> due t = d.
Proof.
  revert r; induction l as [|x l IH]; intros r H; simpl in H; [discriminate|].
  destruct (due x =? d) eqn:E.
  - injection H as <- <-. apply Z.eqb_eq, E.
  - destruct (takeDue d l) as [[t' r']|]; [|discriminate].
    injection H as <- <-. apply (IH r' eq_refl).
Qed.

Lemma nextTimer_min (limit : Z) (l r : list Timer) (t : Timer) :
  nextTimer limit l = Some (t, r) ->
  due t <= limit /\ forall t', In t' l -> due t <= due t'.
Proof.
  unfold nextTimer. destruct (minDue l) as [m|] eqn:Em; [|discriminate].
  destruct (Z.leb_spec m limit) as [Hm|]; [|discriminate].
  intros H. rewrite (takeDue_due _ _ _ _ H). split; [exact Hm|].
  intros t' Ht'. destruct (minDue_le _ _ Ht') as (m' & Em' & Hm').
  rewrite Em in Em'. injection Em' as <-. exact Hm'.
Qed.

Lemma settleOk_fire (limit : Z) (s : State) (t : Timer) (rest : list Timer) :
  settleOk s -> now s <= limit -> nextTimer limit (timers s) = Some (t, rest) ->
  let s' := runCallback (cb t) (set_timers rest (set_now (due t) s)) in
  settleOk s' /\ now s' <= limit.
Proof.
  intros [F S] Hl E. cbv zeta.
  destruct (nextTimer_min _ _ _ _ E) as (Hle & Hmin).
  destruct (nextTimer_split _ _ _ _ E) as (l1 & l2 & E1 & E2).
  assert (Hrest : forall t', In t' rest -> In t' (timers s)).
  { intros t' H. rewrite E1. rewrite E2 in H.
    apply in_app_or in H as [H|H]; apply in_or_app; simpl; auto. }
  assert (Fut : forall t', In t' rest -> due t <= due t')
    by (intros t' H; apply Hmin, Hrest, H).
  assert (Hnow : forall c x, now (runCallback c x) = now x).
  { intros c x. destruct c; simpl.
    - unfold settle, scrollToSmooth. cbv zeta. break_ifs; reflexivity.
    - unfold wheelTimeout. cbv zeta. destruct (_ <? _); [reflexivity|].
      destruct (wheelTarget _ _);
        [|reflexivity].
      unfold request. simpl_fields. rewrite (proj1 (proj2 (scrollToSection_grow _ _ _))).
      reflexivity.
    - reflexivity.
    - unfold resizeInner, scrollToAuto. cbv zeta. destruct (_ <? _); reflexivity. }
  split; [|rewrite Hnow; exact Hle].
  destruct (isSettle t) eqn:Ht.
  - unfold isSettle in Ht. destruct (cb t) as [w i o| | |]; try discriminate. simpl.
    unfold settle, scrollToSmooth. cbv zeta.
    break_ifs; (split; [simpl_fields; exact Fut|intros; discriminate]).
  - apply settleOk_callback. split; simpl_fields; [exact Fut|].
    intros Hp. destruct (S Hp) as (t' & Hin & Hs' & Hd).
    exists t'. split; [|split; [exact Hs'|]].
    + rewrite E2. rewrite E1 in Hin. apply in_app_or in Hin as [H|[H|H]];
        apply in_or_app; auto. subst t'. rewrite Ht in Hs'. discriminate.
    + assert (Hin' : In t (timers s))
        by (rewrite E1; apply in_or_app; right; left; reflexivity).
      pose proof (F t Hin'). lia.
Qed.

Lemma settleOk_fireDue (fuel : nat) (limit : Z) (s : State) :
  settleOk s -> now s <= limit ->
  settleOk (fireDue fuel limit s) /\ now (fireDue fuel limit s) <= limit.
Proof.
  revert s; induction fuel as [|f IH]; intros s Hs Hl; [auto|].
  rewrite fireDue_step.
  destruct (nextTimer limit (timers s)) as [[t rest]|] eqn:E; [|auto].
  destruct (settleOk_fire limit s t rest Hs Hl E). apply IH; auto.
Qed.

Lemma settleOk_wait (d : Z) (s : State) : 0 <= d -> settleOk s -> settleOk (wait d s).
Proof.
  intros Hd Hs.
  destruct (settleOk_fireDue (2 * List.length (timers s)) (now s + d) s Hs ltac:(lia))
    as [[F S] Hl].
  split.
  - intros t Ht. unfold wait in Ht |- *. simpl_fields.
    pose proof (fireDue_drains _ (now s + d) s (proj2 (timersWeight_length (timers s))) t Ht). lia.
  - unfold wait. simpl_fields. intros Hp. destruct (S Hp) as (t & Ht & Hst & Hdt).
    exists t. repeat split; auto. lia.
Qed.

Lemma settleOk_run (s : State) (es : list Event) :
  Forall validEvent es -> settleOk s -> settleOk (run s es).
Proof.
  intros Hv. refine (reach_run settleOk validEvent _ _ _ _ _ _ _ s es Hv).
  - exact settleOk_request.
  - intros x y s0. destruct s0; exact (fun H => H).
  - intros dx dy s0 Hs. unfold handleWheel. cbv zeta.
    destruct (_ <? _).
    + destruct (_ && _); [exact Hs|].
      apply (settleOk_grow s0); [exact Hs|reflexivity| |auto].
      unfold setTimeout, clearTimeouts. simpl_fields.
      eapply timersGrow_trans; [apply timersGrow_clear, settle_not_wheel|].
      apply timersGrow_add. simpl. unfold WHEEL_THROTTLE; lia.
    + destruct (_ <? _); [|exact Hs].
      unfold scrollBySmooth, scrollToSmooth. destruct (_ =? _); destruct s0; exact Hs.
  - intros w s0 _ Hs. apply (settleOk_grow s0); [exact Hs|reflexivity| |auto].
    unfold resize, handleResize, setTimeout, clearTimeouts. simpl_fields.
    eapply timersGrow_trans; [apply timersGrow_clear, settle_not_outer|].
    apply timersGrow_add. simpl. lia.
  - intros s0. unfold animEnd. destruct s0, anim0; exact (fun H => H).
  - intros s0 Hs. unfold frame. destruct (scrollPending s0); [|exact Hs].
    destruct (resolveIndex (scrollLeft s0) (width s0)) as [i| | |];
      [|destruct s0; exact Hs..].
    destruct (setCurrentSection_grow i
                (set_scroll (scrollLeft s0) (anim s0) false s0)) as (G & N & P).
    apply (settleOk_grow s0); [exact Hs|exact N|exact G|].
    rewrite P. auto.
  - exact settleOk_wait.
Qed.

Lemma orEmpty_id (v : string) : orEmpty v = v.
Proof. unfold orEmpty. destruct (String.eqb_spec v ""); congruence. Qed.

Lemma settle_wait (x : State) (w c : Z) (snap : string) :
  timers x = [mkTimer (now x + scrollDuration) (CbSettle w c snap)] ->
  scrollLeft x = w * c ->
  wait scrollDuration x =
  mkState (now x + scrollDuration) (width x) (scrollLeft x) (anim x) (scrollPending x)
    (orEmpty snap) (currentSection x) false None (lastWheelTime x) (accumulatedDelta x)
    (touchStartX x) (touchStartY x) [] (requests x).
Proof.
  destruct x as [n w' sl a sp snap' cur ip ps lw acc tx ty tm rq].
  simpl. intros -> ->. unfold wait. simpl_fields.
  change (2 * List.length [mkTimer (n + scrollDuration) (CbSettle w c snap)])%nat with 2%nat.
  rewrite !fireDue_step. unfold nextTimer. simpl_fields.
  cbn [minDue takeDue due cb]. rewrite Z.leb_refl, Z.eqb_refl.
  cbn [runCallback cb due]. unfold settle. cbv zeta. simpl_fields.
  rewrite Z.sub_diag. cbn [Z.abs Z.ltb Z.compare].
  rewrite fireDue_step. reflexivity.
Qed.

(** ** Index synchronisation *)
































(** [X1] A click from an idle container with no pending timeout converges:
    after the smooth scroll has landed, the next frame and [scrollDuration]
    ms, the container rests exactly at section [clampIndex k], the index is
    [clampIndex k], both flags are cleared, no timeout is left and the snap
    type is again the one the container had before the click (the
    [originalSnapType || ''] write-back). *)
Theorem click_converges (s : State) (k : Z)
  (Hidle : scrollInProgress s = false) (Htimers : timers s = []) (Hw : 0 < width s) :
  let r := run s [Click k; AnimEnd; Frame; Wait scrollDuration] in
  scrollLeft r = width s * clampIndex k /\ currentSection r = clampIndex k /\
  scrollInProgress r = false /\ pendingScroll r = None /\ timers r = [] /\
  anim r = None /\ scrollPending r = false /\ snapType r = snapType s /\
  requests r = requests s ++ [k] /\ width r = width s /\ now r = now s + scrollDuration.
Proof.
  destruct s as [n w sl a sp snap cur ip ps lw acc tx ty tm rq].
  simpl in Hidle, Htimers, Hw. subst ip tm.
  pose proof (clampIndex_range k) as Hr.
  set (c := clampIndex k) in *.
  assert (Hcl : forall s, width s = w -> clampScroll s (w * c) = w * c).
  { intros s' Hs'. unfold clampScroll, maxScroll. rewrite Hs'. change maxIndex with 6 in *. nia. }
  cbv zeta. unfold run. cbn [fold_left step].
  unfold request, logRequest, scrollToSection. simpl_fields. cbn [andb].
  cbv zeta. simpl_fields. fold c.
  assert (Hres : resolveIndex (w * c) w = Idx c) by (apply resolveIndex_mult; auto).
  unfold setCurrentSection, clearTimeouts, scrollToSmooth, setTimeout. simpl_fields.
  rewrite Hcl by (destruct (c =? cur); reflexivity).
  destruct (c =? cur) eqn:Ec; [apply Z.eqb_eq in Ec; subst cur|];
  (destruct (w * c =? sl) eqn:Es; [apply Z.eqb_eq in Es; subst sl|]);
  simpl_fields; rewrite ?Es; unfold animEnd; simpl_fields; try rewrite Hcl by reflexivity;
  rewrite ?Z.eqb_refl; simpl_fields; rewrite ?Es; cbn [negb orb];
  unfold frame; simpl_fields;
  destruct sp; cbn [orb negb]; unfold setCurrentSection; simpl_fields; rewrite ?Hres;
  cbv iota beta; rewrite ?Z.eqb_refl;
  rewrite settle_wait with (w := w) (c := c) (snap := snap) by reflexivity;
  simpl_fields; rewrite ?orEmpty_id; repeat split; reflexivity.
Qed.

(** [X2] The gate of [handleWheel].  A vertical-dominant event inside the
    300 ms window of a running transition is dropped: the state is
    unchanged.  Otherwise it adds [|deltaY|] to the accumulator, stamps
    [lastWheelTime], and leaves exactly one wheel timeout, due
    [WHEEL_THROTTLE] ms later with this event's [deltaY], keeping every
    other timeout; it requests nothing and does not move the container.  A
    horizontal-dominant event only (re)targets a smooth scroll, and one with
    no delta at all does nothing. *)
Theorem handleWheel_gate (dx dy : Z) (s : State) :
  (Z.abs dx < Z.abs dy -> scrollInProgress s = true -> now s - lastWheelTime s < 300 ->
   handleWheel dx dy s = s) /\
  (Z.abs dx < Z.abs dy -> ~ (scrollInProgress s = true /\ now s - lastWheelTime s < 300) ->
   let r := handleWheel dx dy s in
   accumulatedDelta r = accumulatedDelta s + Z.abs dy /\ lastWheelTime r = now s /\
   filter isWheel (timers r) = [mkTimer (now s + WHEEL_THROTTLE) (CbWheel dy)] /\
   (forall t, isWheel t = false -> In t (timers r) <-> In t (timers s)) /\
   requests r = requests s /\ scrollLeft r = scrollLeft s /\ anim r = anim s /\
   scrollInProgress r = scrollInProgress s /\ currentSection r = currentSection s) /\
  (Z.abs dy <= Z.abs dx ->
   handleWheel dx dy s = set_scroll (scrollLeft s) (anim (handleWheel dx dy s)) (scrollPending s) s /\
   (dx = 0 -> handleWheel dx dy s = s)).
Proof.
  unfold handleWheel. split; [|split].
  - intros H1 H2 H3. destruct (Z.ltb_spec (Z.abs dx) (Z.abs dy)); [|lia].
    rewrite H2. destruct (Z.ltb_spec (now s - lastWheelTime s) 300); [reflexivity|lia].
  - intros H1 H2. cbv zeta. destruct (Z.ltb_spec (Z.abs dx) (Z.abs dy)); [|lia].
    replace (scrollInProgress s && (now s - lastWheelTime s <? 300)) with false.
    2:{ symmetry. destruct (scrollInProgress s); [|reflexivity]. simpl.
        destruct (Z.ltb_spec (now s - lastWheelTime s) 300); [|reflexivity]. tauto. }
    unfold setTimeout, clearTimeouts. simpl_fields.
    repeat split; try reflexivity.
    + rewrite filter_app. simpl.
      replace (filter isWheel (filter (fun t => negb (isWheel t)) (timers s))) with (@nil Timer).
      { reflexivity. }
      symmetry. induction (timers s) as [|t l IH]; simpl; [reflexivity|].
      destruct (isWheel t) eqn:E; simpl; [exact IH|]. rewrite E. exact IH.
    + intros Ht. apply in_app_or in Ht as [Ht|[<-|[]]]; [apply filter_In in Ht; tauto|].
      discriminate.
    + intros Ht. apply in_or_app. left. apply filter_In. split; [exact Ht|].
      match goal with Hn : isWheel _ = false |- _ => rewrite Hn end. reflexivity.
  - intros H. destruct (Z.ltb_spec (Z.abs dx) (Z.abs dy)); [lia|].
    split.
    + destruct (Z.ltb_spec 0 (Z.abs dx)).
      * unfold scrollBySmooth, scrollToSmooth. destruct (_ =? _); reflexivity.
      * destruct s; reflexivity.
    + intros ->. reflexivity.
Qed.

(** [X9] The settle timeout of [scrollToSection], at an unchanged section
    width: it clears the flag and the pending index, writes back the
    captured snap type, never jumps the container, keeps the timeouts and
    the index, and starts a smooth correction to the expected offset exactly
    when the container is more than 2 px away from it. *)
Theorem settle_corrects (w i : Z) (o : string) (s : State)
    (Hi : 0 <= i <= maxIndex) (Hw : width s = w) (Hw0 : 0 <= w) :
  let r := settle w i o s in
  scrollInProgress r = false /\ pendingScroll r = None /\ snapType r = o /\
  scrollLeft r = scrollLeft s /\ timers r = timers s /\ currentSection r = currentSection s /\
  (Z.abs (scrollLeft s - w * i) <= 2 -> anim r = anim s) /\
  (2 < Z.abs (scrollLeft s - w * i) -> anim r = Some (w * i)).
Proof.
  unfold settle, scrollToSmooth. cbv zeta.
  assert (Hcl : clampScroll s (w * i) = w * i).
  { unfold clampScroll, maxScroll. rewrite Hw. change maxIndex with 6 in *. nia. }
  rewrite Hcl.
  destruct (Z.ltb_spec 2 (Z.abs (scrollLeft s - w * i))).
  - destruct (Z.eqb_spec (w * i) (scrollLeft s)); [lia|].
    simpl_fields. rewrite orEmpty_id. repeat split; auto; intros; lia.
  - simpl_fields. rewrite orEmpty_id. repeat split; auto; intros; lia.
Qed.

(** [X10] Native scrolling as left by the page's listeners: a wheel event
    has its default prevented (by [handleWheel] on the container, which also
    stops propagation, or by the document's [preventVerticalScroll]) exactly
    when it is vertical-dominant, or horizontal with a non-zero [deltaX] on
    the container; a touch move scrolls natively exactly when it is on the
    container and not vertical-dominant beyond 10 px ([handleTouchMove]);
    outside the container [preventTouchVerticalScroll] blocks it. *)
Theorem default_prevention (onContainer : bool) (dx dy clientX clientY : Z) (s : State) :
  (wheelDefaultPrevented onContainer dx dy = true <->
   Z.abs dx < Z.abs dy \/ (onContainer = true /\ dx <> 0)) /\
  (touchMoveDefaultPrevented onContainer clientX clientY s = false <->
   onContainer = true /\
   ~ (Z.abs (clientX - touchStartX s) < Z.abs (clientY - touchStartY s) /\
      10 < Z.abs (clientY - touchStartY s))).
Proof.
  unfold wheelDefaultPrevented, handleWheelPrevents, preventVerticalScroll,
    touchMoveDefaultPrevented, handleTouchMovePrevents, preventTouchVerticalScroll.
  cbv zeta. split.
  - destruct onContainer; simpl;
      destruct (Z.ltb_spec (Z.abs dx) (Z.abs dy)); simpl;
      try (destruct (Z.ltb_spec 0 (Z.abs dx)));
      split; intros; try discriminate; try reflexivity; try lia;
      destruct H; try lia; destruct H; try discriminate; lia.
  - destruct onContainer; simpl;
      destruct (Z.ltb_spec (Z.abs (clientX - touchStartX s)) (Z.abs (clientY - touchStartY s)));
      destruct (Z.ltb_spec 10 (Z.abs (clientY - touchStartY s))); simpl;
      split; intros; try discriminate; try reflexivity; try tauto; try lia.
Qed.

Theorem click_converges_witness :
  let s := settledAt 2 in
  scrollInProgress s = false /\ timers s = [] /\ 0 < width s /\
  (let r := run s [Click 5; AnimEnd; Frame; Wait scrollDuration] in
   scrollLeft r = width s * clampIndex 5 /\ currentSection r = clampIndex 5 /\
   scrollInProgress r = false /\ pendingScroll r = None /\ timers r = [] /\
   anim r = None /\ scrollPending r = false /\ snapType r = snapType s /\
   requests r = requests s ++ [5] /\ width r = width s /\ now r = now s + scrollDuration).
Proof.
  cbv zeta. split; [vm_compute; reflexivity|]. split; [vm_compute; reflexivity|].
  split; [vm_compute; reflexivity|].
  apply (click_converges (settledAt 2) 5); vm_compute; reflexivity.
Defined.


(** [X3] From mount at a positive viewport width, through any events whose
    resizes report positive widths: the width stays positive (so the
    [scrollLeft / sectionWidth] of [handleScroll] is never [0 / 0]),
    [scrollInProgressRef] is set exactly when [pendingScrollRef] holds an
    index, that index and [currentSection] lie in [0, maxIndex], and the
    wheel accumulator is never negative. *)
Theorem refs_coherent_reachable (w : Z) (es : list Event)
    (Hw : 0 < w) (Hv : Forall posWidthEvent es) :
  let s := run (mount w) es in
  0 < width s /\
  (scrollInProgress s = true <-> pendingScroll s <> None) /\
  (forall p, pendingScroll s = Some p -> 0 <= p <= maxIndex) /\
  0 <= currentSection s <= maxIndex /\ 0 <= accumulatedDelta s.
Proof.
  cbv zeta. split; [apply posWidth_run; [exact Hv|exact Hw]|].
  apply refsOk_run. unfold refsOk; simpl. change maxIndex with 6.
  split; [split; [discriminate|intros H; exfalso; apply H; reflexivity]|].
  split; [intros p Hp; discriminate|lia].
Qed.

Theorem refs_coherent_reachable_witness :
  0 < 1000 /\ Forall posWidthEvent [Click 6; Resize 400; Wheel 0 120; Wait 60; Frame] /\
  (let s := run (mount 1000) [Click 6; Resize 400; Wheel 0 120; Wait 60; Frame] in
   0 < width s /\
   (scrollInProgress s = true <-> pendingScroll s <> None) /\
   (forall p, pendingScroll s = Some p -> 0 <= p <= maxIndex) /\
   0 <= currentSection s <= maxIndex /\ 0 <= accumulatedDelta s).
Proof.
  split; [lia|]. split; [repeat constructor; simpl; lia|].
  apply refs_coherent_reachable; [lia|repeat constructor; simpl; lia].
Defined.

(** [X4] Debouncing: in every state reachable from mount at most one wheel
    timeout and at most one outer resize timeout are pending. *)
Theorem debounce_reachable (w : Z) (es : list Event) :
  let s := run (mount w) es in
  (List.length (filter isWheel (timers s)) <= 1)%nat /\
  (List.length (filter isResizeOuter (timers s)) <= 1)%nat.
Proof. apply debounceOk_run. unfold debounceOk, countTimers, mount; simpl; lia. Qed.

(** [X7] No transition is left hanging: in every state reachable from mount
    (time never runs backwards, viewport widths are non-negative), while
    [scrollInProgressRef] is set a settle timeout of [scrollToSection] is
    pending, due within [scrollDuration] ms; every pending timeout is due no
    earlier than the current time. *)
Theorem transition_settle_pending (w : Z) (es : list Event)
    (Hv : Forall validEvent es) :
  let s := run (mount w) es in
  (forall t, In t (timers s) -> now s <= due t) /\
  (scrollInProgress s = true ->
   exists sw i o d, In (mkTimer d (CbSettle sw i o)) (timers s) /\
                    now s <= d <= now s + scrollDuration).
Proof.
  cbv zeta.
  destruct (settleOk_run (mount w) es Hv) as [F S];
    [split; [intros t []|discriminate]|].
  split; [exact F|].
  intros Hp. destruct (S Hp) as ([d c] & Hin & Hs & Hd).
  destruct c as [sw i o| | |]; try discriminate.
  exists sw, i, o, d. split; [exact Hin|]. split; [exact (F _ Hin)|exact Hd].
Qed.

Theorem transition_settle_pending_witness :
  Forall validEvent [Wheel 0 120; Wait 60; Click 4] /\
  (let s := run (mount 1000) [Wheel 0 120; Wait 60; Click 4] in
   (forall t, In t (timers s) -> now s <= due t) /\
   (scrollInProgress s = true ->
    exists sw i o d, In (mkTimer d (CbSettle sw i o)) (timers s) /\
                     now s <= d <= now s + scrollDuration)).
Proof.
  split; [repeat constructor; simpl; lia|].
  apply transition_settle_pending. repeat constructor; simpl; lia.
Defined.

Theorem settle_corrects_witness :
  let s := run (mount 1000) [Click 3; Wheel 0 5] in
  0 <= 3 <= maxIndex /\ width s = 1000 /\ 0 <= 1000 /\
  (let r := settle 1000 3 "x mandatory" s in
   scrollInProgress r = false /\ pendingScroll r = None /\ snapType r = "x mandatory"%string /\
   scrollLeft r = scrollLeft s /\ timers r = timers s /\ currentSection r = currentSection s /\
   (Z.abs (scrollLeft s - 1000 * 3) <= 2 -> anim r = anim s) /\
   (2 < Z.abs (scrollLeft s - 1000 * 3) -> anim r = Some (1000 * 3))).
Proof.
  cbv zeta. split; [vm_compute; split; discriminate|].
  split; [vm_compute; reflexivity|]. split; [lia|].
  apply settle_corrects; [vm_compute; split; discriminate|vm_compute; reflexivity|lia].
Defined.

